(** * Token risk list: store, filter/sort pipeline, trend calculator, row measurements

    A shallow embedding of the ingestion-to-render core of the token list
    front end:

    - [App]      : the message handler of [App.tsx] ([CONNECTION_STATUS],
                   [BATCH_PROCESSED]) and the token store it owns;
    - [Pipeline] : the [filteredTokens] memo of [TokenEventsList.tsx]
                   (filter, sort, slice) and [getRiskScore];
    - [Trend]    : [calculateTrend] of [TokenEventsList.tsx];
    - [Chart]    : [dataMemo] / [trendInfo] of [TokenChart]
                   ([TokenLiquidityChart.tsx]);
    - [Rows]     : the measured-height map, the expansion set and the
                   handlers [handleTokenClick], [updateFilters] and the
                   resize reactions of [TokenEventsList.tsx].

    Conventions of the embedding.  A JavaScript [number] that carries a
    quantity (tax, liquidity, holder count, age, pixel height, regression
    slope) is an exact rational [Q]; rounding of IEEE doubles, [NaN] and the
    infinities are outside the model, and the inputs at which a statement of
    the specification is shown to fail are integers and dyadic rationals, on
    which double arithmetic is exact.  Console and debug-log output is not
    part of the state.  Timestamps
    (milliseconds) and array indices are integers.  A truthiness test on a
    flag is a [bool].  The JavaScript object used as the store is an
    association list in property order: token addresses are not array-index
    strings, so property order is insertion order and an assignment to an
    existing key keeps the key's position. *)

From Stdlib Require Import QArith Qabs Qminmax Qpower Lqa Lia ZArith Sorting.Sorted.
From stdpp Require Import gmap strings list.

(** ** Numbers *)

Definition Qgtb (x y : Q) : bool := negb (Qle_bool x y).
Definition Qltb (x y : Q) : bool := negb (Qle_bool y x).

(** ** Shared data model ([types.ts] is imported by every component) *)

Inductive RiskLevel := safe | warning | danger.

#[global] Instance RiskLevel_eq_dec : EqDecision RiskLevel.
Proof. solve_decision. Defined.

(** One entry of the [gpLpHolders] payload, as read by the list:
    [holder.is_locked] and [Number(holder.percent)]. *)
Record LpHolder := { is_locked : bool; percent : Q }.

(** [token.gpLpHolders] is a JSON string.  [JSON.parse(s || '[]')] followed
    by [reduce] either yields the holder array or throws; a missing or empty
    string parses as the empty array. *)
Inductive LpPayload :=
| LpAbsent
| LpParsed (holders : list LpHolder)
| LpMalformed.

Record Token := {
  tokenAddress : string;
  tokenName : string;
  tokenSymbol : string;
  tokenAgeHours : Q;
  hpIsHoneypot : bool;
  hpLiquidityAmount : Q;
  gpCanTakeBackOwnership : bool;
  gpHiddenOwner : bool;
  gpOwnerChangeBalance : bool;
  gpIsAirdropScam : bool;
  gpHoneypotWithSameCreator : bool;
  gpFakeToken : bool;
  gpIsOpenSource : bool;
  gpIsProxy : bool;
  gpIsMintable : bool;
  gpSlippageModifiable : bool;
  gpPersonalSlippageModifiable : bool;
  gpCannotSellAll : bool;
  gpTradingCooldown : bool;
  gpTransferPausable : bool;
  gpBuyTax : Q;
  gpSellTax : Q;
  gpOwnerAddress : string;
  gpLpHolders : LpPayload;
  gpHolderCount : Q;
  (** absent on a record as it arrives from the worker *)
  riskLevel : option RiskLevel
}.

(** [{ ...token, riskLevel }] *)
Definition with_riskLevel (token : Token) (r : RiskLevel) : Token :=
  {| tokenAddress := tokenAddress token;
     tokenName := tokenName token;
     tokenSymbol := tokenSymbol token;
     tokenAgeHours := tokenAgeHours token;
     hpIsHoneypot := hpIsHoneypot token;
     hpLiquidityAmount := hpLiquidityAmount token;
     gpCanTakeBackOwnership := gpCanTakeBackOwnership token;
     gpHiddenOwner := gpHiddenOwner token;
     gpOwnerChangeBalance := gpOwnerChangeBalance token;
     gpIsAirdropScam := gpIsAirdropScam token;
     gpHoneypotWithSameCreator := gpHoneypotWithSameCreator token;
     gpFakeToken := gpFakeToken token;
     gpIsOpenSource := gpIsOpenSource token;
     gpIsProxy := gpIsProxy token;
     gpIsMintable := gpIsMintable token;
     gpSlippageModifiable := gpSlippageModifiable token;
     gpPersonalSlippageModifiable := gpPersonalSlippageModifiable token;
     gpCannotSellAll := gpCannotSellAll token;
     gpTradingCooldown := gpTradingCooldown token;
     gpTransferPausable := gpTransferPausable token;
     gpBuyTax := gpBuyTax token;
     gpSellTax := gpSellTax token;
     gpOwnerAddress := gpOwnerAddress token;
     gpLpHolders := gpLpHolders token;
     gpHolderCount := gpHolderCount token;
     riskLevel := Some r |}.

(** A record with every risk signal off: open source, no tax, renounced. *)
Definition plainToken (addr : string) : Token :=
  {| tokenAddress := addr; tokenName := "Token"; tokenSymbol := "TKN";
     tokenAgeHours := 1; hpIsHoneypot := false; hpLiquidityAmount := 1000;
     gpCanTakeBackOwnership := false; gpHiddenOwner := false;
     gpOwnerChangeBalance := false; gpIsAirdropScam := false;
     gpHoneypotWithSameCreator := false; gpFakeToken := false;
     gpIsOpenSource := true; gpIsProxy := false; gpIsMintable := false;
     gpSlippageModifiable := false; gpPersonalSlippageModifiable := false;
     gpCannotSellAll := false; gpTradingCooldown := false;
     gpTransferPausable := false; gpBuyTax := 0; gpSellTax := 0;
     gpOwnerAddress := "0x0000000000000000000000000000000000000000";
     gpLpHolders := LpAbsent; gpHolderCount := 10;
     riskLevel := None |}.

(** Records used as concrete inputs: [plainToken] with one field changed. *)
Definition with_signals (t : Token) (honeypot openSource pausable : bool) : Token :=
  {| tokenAddress := tokenAddress t; tokenName := tokenName t;
     tokenSymbol := tokenSymbol t; tokenAgeHours := tokenAgeHours t;
     hpIsHoneypot := honeypot; hpLiquidityAmount := hpLiquidityAmount t;
     gpCanTakeBackOwnership := gpCanTakeBackOwnership t;
     gpHiddenOwner := gpHiddenOwner t;
     gpOwnerChangeBalance := gpOwnerChangeBalance t;
     gpIsAirdropScam := gpIsAirdropScam t;
     gpHoneypotWithSameCreator := gpHoneypotWithSameCreator t;
     gpFakeToken := gpFakeToken t; gpIsOpenSource := openSource;
     gpIsProxy := gpIsProxy t; gpIsMintable := gpIsMintable t;
     gpSlippageModifiable := gpSlippageModifiable t;
     gpPersonalSlippageModifiable := gpPersonalSlippageModifiable t;
     gpCannotSellAll := gpCannotSellAll t;
     gpTradingCooldown := gpTradingCooldown t;
     gpTransferPausable := pausable; gpBuyTax := gpBuyTax t;
     gpSellTax := gpSellTax t; gpOwnerAddress := gpOwnerAddress t;
     gpLpHolders := gpLpHolders t; gpHolderCount := gpHolderCount t;
     riskLevel := riskLevel t |}.

Definition with_numbers (t : Token) (age holderCount liquidityAmount : Q) : Token :=
  {| tokenAddress := tokenAddress t; tokenName := tokenName t;
     tokenSymbol := tokenSymbol t; tokenAgeHours := age;
     hpIsHoneypot := hpIsHoneypot t; hpLiquidityAmount := liquidityAmount;
     gpCanTakeBackOwnership := gpCanTakeBackOwnership t;
     gpHiddenOwner := gpHiddenOwner t;
     gpOwnerChangeBalance := gpOwnerChangeBalance t;
     gpIsAirdropScam := gpIsAirdropScam t;
     gpHoneypotWithSameCreator := gpHoneypotWithSameCreator t;
     gpFakeToken := gpFakeToken t; gpIsOpenSource := gpIsOpenSource t;
     gpIsProxy := gpIsProxy t; gpIsMintable := gpIsMintable t;
     gpSlippageModifiable := gpSlippageModifiable t;
     gpPersonalSlippageModifiable := gpPersonalSlippageModifiable t;
     gpCannotSellAll := gpCannotSellAll t;
     gpTradingCooldown := gpTradingCooldown t;
     gpTransferPausable := gpTransferPausable t; gpBuyTax := gpBuyTax t;
     gpSellTax := gpSellTax t; gpOwnerAddress := gpOwnerAddress t;
     gpLpHolders := gpLpHolders t; gpHolderCount := holderCount;
     riskLevel := riskLevel t |}.

(** Transfers can be paused; every other signal is off. *)
Definition pausableToken : Token :=
  with_signals (plainToken "0xa11ce") false true true.

(** The contract source is not published; every other signal is off. *)
Definition closedSourceToken : Token :=
  with_signals (plainToken "0xc105ed") false false false.

Definition honeypotToken : Token :=
  with_signals (plainToken "0xbad") true true false.

(** ** The application shell: worker messages and the token store *)

Module App.

(** [tokens.items : Record<string, Token>] in property order. *)
Definition Items := list (string * Token).

Fixpoint lookup_item (a : string) (items : Items) : option Token :=
  match items with
  | [] => None
  | (k, v) :: rest => if decide (k = a) then Some v else lookup_item a rest
  end.

(** [state.items[k] = v]: overwrite in place, or append a new property. *)
Fixpoint assign (k : string) (v : Token) (items : Items) : Items :=
  match items with
  | [] => [(k, v)]
  | (k', v') :: rest =>
      if decide (k' = k) then (k, v) :: rest
      else (k', v') :: assign k v rest
  end.

(** [Object.values(tokens.items)], the [tokens] prop of the list. *)
Definition values (items : Items) : list Token := map snd items.
Definition keys (items : Items) : list string := map fst items.

(** The risk computation inside the [BATCH_PROCESSED] loop. *)
Definition computeRiskLevel (token : Token) : RiskLevel :=
  if hpIsHoneypot token then danger
  else if gpCanTakeBackOwnership token
          || gpHiddenOwner token
          || gpOwnerChangeBalance token
          || gpIsAirdropScam token
          || gpHoneypotWithSameCreator token
          || gpFakeToken token
          || negb (gpIsOpenSource token)
  then danger
  else if gpIsProxy token
          || gpIsMintable token
          || gpSlippageModifiable token
          || gpPersonalSlippageModifiable token
          || gpCannotSellAll token
          || gpTradingCooldown token
          || gpTransferPausable token
          || (Qgtb (gpBuyTax token) 10 || Qgtb (gpSellTax token) 10)
  then warning
  else safe.

Definition processToken (token : Token) : Token :=
  with_riskLevel token (computeRiskLevel token).

(** Body of [data.forEach] for one record. *)
Definition storeToken (items : Items) (token : Token) : Items :=
  assign (tokenAddress token) (processToken token) items.

(** [setTokens(produce(state => data.forEach(...)))] *)
Definition mergeBatch (items : Items) (data : list Token) : Items :=
  fold_left storeToken data items.

Record ConnectionStatus := {
  connected : bool;
  error : option string
}.

Inductive WorkerEvent :=
| CONNECTION_STATUS (data : option ConnectionStatus)
| BATCH_PROCESSED (data : option (list Token))
| OTHER_EVENT.

Inductive WorkerRequest := REQUEST_INITIAL_TOKENS.

Record State := {
  items : Items;
  isConnected : bool;
  connectionError : option string;
  isLoading : bool;
  hasReceivedInitialTokens : bool;
  (** messages posted to the worker so far, newest first *)
  posted : list WorkerRequest
}.

Definition initial : State :=
  {| items := []; isConnected := false; connectionError := None;
     isLoading := true; hasReceivedInitialTokens := false; posted := [] |}.

(** [wsWorker.onmessage] *)
Definition onmessage (st : State) (ev : WorkerEvent) : State :=
  match ev with
  | CONNECTION_STATUS (Some data) =>
      let wasConnected := isConnected st in
      let lost := wasConnected && negb (connected data) in
      let joined := negb wasConnected && connected data in
      {| items := if lost then [] else items st;
         isConnected := connected data;
         connectionError :=
           match error data with
           | Some EmptyString => None
           | e => e
           end;
         isLoading := if lost then true else isLoading st;
         hasReceivedInitialTokens :=
           if lost then false else hasReceivedInitialTokens st;
         posted := if joined then REQUEST_INITIAL_TOKENS :: posted st
                   else posted st |}
  | BATCH_PROCESSED (Some data) =>
      {| items := mergeBatch (items st) data;
         isConnected := isConnected st;
         connectionError := connectionError st;
         isLoading := false;
         hasReceivedInitialTokens := true;
         posted := posted st |}
  | _ => st
  end.

(** States the shell can be in: the initial one and whatever the handler
    makes of it, one event at a time. *)
Inductive reachable : State → Prop :=
| reachable_initial : reachable initial
| reachable_step st ev : reachable st → reachable (onmessage st ev).

End App.

(** ** JavaScript array and string primitives used by the list *)

Module Js.

Section Arrays.
Context {A : Type}.

(** [Array.prototype.sort(cmp)].  The sort is stable (ECMAScript 2019),
    so for a comparator that is a consistent ordering the result is the
    one a stable insertion sort computes: an element moves past exactly
    those earlier-placed elements it compares strictly greater than. *)
Fixpoint insert (cmp : A → A → Q) (x : A) (l : list A) : list A :=
  match l with
  | [] => [x]
  | y :: rest =>
      if Qgtb (cmp x y) 0 then y :: insert cmp x rest else x :: l
  end.

Definition sort (cmp : A → A → Q) (l : list A) : list A :=
  fold_right (insert cmp) [] l.

(** [l.slice(0, end)] for an integer [end]: a negative [end] counts
    from the back. *)
Definition slice0 (stop : Z) (l : list A) : list A :=
  let len := Z.of_nat (length l) in
  let k := if (stop <? 0)%Z then Z.max (len + stop) 0 else Z.min stop len in
  take (Z.to_nat k) l.

(** [l.findIndex(p)], [-1] when no element satisfies [p]. *)
Fixpoint findIndex_from (p : A → bool) (i : Z) (l : list A) : Z :=
  match l with
  | [] => (-1)%Z
  | x :: rest => if p x then i else findIndex_from p (i + 1)%Z rest
  end.

Definition findIndex (p : A → bool) (l : list A) : Z := findIndex_from p 0 l.

(** [l[i]] for an integer index. *)
Definition at_index (l : list A) (i : Z) : option A :=
  if (i <? 0)%Z then None else l !! Z.to_nat i.

(** [l.reduce((acc, x, i) => f(acc, x, i), init)] *)
Fixpoint reduce_from {B : Type} (f : B → A → nat → B) (i : nat)
    (l : list A) (acc : B) : B :=
  match l with
  | [] => acc
  | x :: rest => reduce_from f (S i) rest (f acc x i)
  end.

Definition reduce {B : Type} (f : B → A → nat → B) (l : list A) (init : B) : B :=
  reduce_from f 0 l init.
End Arrays.

(** [s.toLowerCase()] on the ASCII range. *)
Definition lower_ascii (c : Ascii.ascii) : Ascii.ascii :=
  let n := Ascii.nat_of_ascii c in
  if (65 <=? n)%nat && (n <=? 90)%nat then Ascii.ascii_of_nat (n + 32) else c.

Fixpoint toLowerCase (s : string) : string :=
  match s with
  | EmptyString => EmptyString
  | String c rest => String (lower_ascii c) (toLowerCase rest)
  end.

(** [s.includes(q)] *)
Fixpoint includes (s q : string) : bool :=
  String.prefix q s
  || match s with
     | EmptyString => false
     | String _ rest => includes rest q
     end.

(** [s.endsWith(suffix)] *)
Fixpoint endsWith (s suffix : string) : bool :=
  String.eqb s suffix
  || match s with
     | EmptyString => false
     | String _ rest => endsWith rest suffix
     end.

Fixpoint drop_chars (n : nat) (s : string) : string :=
  match n, s with
  | O, _ => s
  | S n', String _ rest => drop_chars n' rest
  | S _, EmptyString => EmptyString
  end.

(** [s.replace(pattern, replacement)] with a string pattern: the first
    occurrence only. *)
Fixpoint replace (s pattern replacement : string) : string :=
  if String.prefix pattern s
  then replacement +:+ drop_chars (String.length pattern) s
  else match s with
       | EmptyString => EmptyString
       | String c rest => String c (replace rest pattern replacement)
       end.

End Js.

(** ** Filter state ([FilterState] of [types.ts], as [getSavedFilters] builds it) *)

Record FilterState := {
  minHolders : Q;
  minLiquidity : Q;
  hideHoneypots : bool;
  showOnlyHoneypots : bool;
  hideDanger : bool;
  hideWarning : bool;
  showOnlySafe : bool;
  hideNotRenounced : bool;
  hideUnlockedLiquidity : bool;
  searchQuery : string;
  sortBy : string;
  sortDirection : string;
  maxRecords : Z;
  hideStagnantHolders : bool;
  hideStagnantLiquidity : bool;
  stagnantRecordCount : Z
}.

(** The defaults returned by [getSavedFilters] when nothing is saved. *)
Definition defaultFilters : FilterState :=
  {| minHolders := 0; minLiquidity := 0; hideHoneypots := false;
     showOnlyHoneypots := false; hideDanger := false; hideWarning := false;
     showOnlySafe := false; hideNotRenounced := false;
     hideUnlockedLiquidity := false; searchQuery := ""; sortBy := "age";
     sortDirection := "desc"; maxRecords := 50; hideStagnantHolders := false;
     hideStagnantLiquidity := false; stagnantRecordCount := 10 |}.

(** The defaults with four options set. *)
Definition filtersWith (hide : bool) (query order : string) (cap : Z)
    : FilterState :=
  {| minHolders := 0; minLiquidity := 0; hideHoneypots := hide;
     showOnlyHoneypots := false; hideDanger := false; hideWarning := false;
     showOnlySafe := false; hideNotRenounced := false;
     hideUnlockedLiquidity := false; searchQuery := query; sortBy := order;
     sortDirection := "desc"; maxRecords := cap; hideStagnantHolders := false;
     hideStagnantLiquidity := false; stagnantRecordCount := 10 |}.

(** The two records of the specification's example scenario, and a third
    with the holder count of the second. *)
Definition tokenA : Token :=
  with_numbers (with_signals (plainToken "0xa") true true false) 1 100 500.

Definition tokenB : Token := with_numbers (plainToken "0xb") 2 50 2000.

Definition tokenC : Token := with_numbers (plainToken "0xc") 3 50 700.

(** ** The filter/sort pipeline: [filteredTokens] *)

Module Pipeline.

Definition ZERO_ADDRESS : string := "0x0000000000000000000000000000000000000000".

Definition getRiskScore (token : Token) : Q :=
  match riskLevel token with
  | Some safe => 2
  | Some warning => 1
  | Some danger => 0
  | None => 0
  end.

Definition riskIs (token : Token) (r : RiskLevel) : bool :=
  bool_decide (riskLevel token = Some r).

(** [lpHolders.reduce((acc, holder) =>
       acc + (holder.is_locked ? Number(holder.percent) * 100 : 0), 0)] *)
Definition totalLocked (lpHolders : list LpHolder) : Q :=
  fold_left (λ acc holder,
               acc + (if is_locked holder then percent holder * 100 else 0))%Q
            lpHolders 0%Q.

(** The [try { ... if (totalLocked < 90) return false } catch { return false }]
    block: [true] when the block returns [false] from the predicate. *)
Definition rejectsUnlocked (token : Token) : bool :=
  match gpLpHolders token with
  | LpAbsent => Qltb (totalLocked []) 90
  | LpParsed lpHolders => Qltb (totalLocked lpHolders) 90
  | LpMalformed => true
  end.

Definition matchesQuery (token : Token) (searchQuery : string) : bool :=
  let query := Js.toLowerCase searchQuery in
  Js.includes (Js.toLowerCase (tokenName token)) query
  || Js.includes (Js.toLowerCase (tokenSymbol token)) query
  || Js.includes (Js.toLowerCase (tokenAddress token)) query.

(** The callback of [result.filter], one early [return false] per line. *)
Definition keepToken (currentFilters : FilterState) (token : Token) : bool :=
  if hideHoneypots currentFilters && hpIsHoneypot token then false
  else if showOnlyHoneypots currentFilters && negb (hpIsHoneypot token) then false
  else if hideDanger currentFilters && riskIs token danger then false
  else if hideWarning currentFilters && riskIs token warning then false
  else if showOnlySafe currentFilters && negb (riskIs token safe) then false
  else if hideNotRenounced currentFilters
          && negb (String.eqb (gpOwnerAddress token) ZERO_ADDRESS) then false
  else if hideUnlockedLiquidity currentFilters && rejectsUnlocked token then false
  else if Qgtb (minHolders currentFilters) 0
          && Qltb (gpHolderCount token) (minHolders currentFilters) then false
  else if Qgtb (minLiquidity currentFilters) 0
          && Qltb (hpLiquidityAmount token) (minLiquidity currentFilters) then false
  else if negb (String.eqb (searchQuery currentFilters) "")
  then matchesQuery token (searchQuery currentFilters)
  else true.

(** [direction] and [field] as the comparator derives them from [sortBy]. *)
Definition direction (sortBy : string) : Q :=
  if Js.endsWith sortBy "_asc" then 1 else (-1).

Definition field (sortBy : string) : string :=
  if Js.endsWith sortBy "_asc" then Js.replace sortBy "_asc" "" else sortBy.

(** The comparator passed to [result.sort]. *)
Definition compareTokens (currentFilters : FilterState) (a b : Token) : Q :=
  let direction := direction (sortBy currentFilters) in
  let field := field (sortBy currentFilters) in
  if String.eqb field "age" then
    ((tokenAgeHours b - tokenAgeHours a) * direction)%Q
  else if String.eqb field "holders" then
    ((gpHolderCount a - gpHolderCount b) * direction)%Q
  else if String.eqb field "liquidity" then
    ((hpLiquidityAmount a - hpLiquidityAmount b) * direction)%Q
  else if String.eqb field "safetyScore" then
    ((getRiskScore a - getRiskScore b) * direction)%Q
  else 0%Q.

Definition filteredTokens (tokens : list Token) (currentFilters : FilterState)
    : list Token :=
  let result := List.filter (keepToken currentFilters) tokens in
  let result := Js.sort (compareTokens currentFilters) result in
  Js.slice0 (maxRecords currentFilters) result.

End Pipeline.

(** ** History points and trends *)

Record HistoryPoint := {
  timestamp : Z;
  totalLiquidity : Q;
  holderCount : Q
}.

Inductive Metric := liquidity | holders.

Inductive TrendDirection := up | down | stagnant.

#[global] Instance TrendDirection_eq_dec : EqDecision TrendDirection.
Proof. solve_decision. Defined.

(** [type === 'liquidity' ? record.totalLiquidity : record.holderCount] *)
Definition metricOf (type : Metric) (record : HistoryPoint) : Q :=
  match type with
  | liquidity => totalLiquidity record
  | holders => holderCount record
  end.

(** [[...history].sort((a, b) => a.timestamp - b.timestamp)] *)
Definition sortByTimestamp (history : list HistoryPoint) : list HistoryPoint :=
  Js.sort (λ a b, inject_Z (timestamp a - timestamp b)) history.

Definition point (t : Z) (liquidityValue holdersValue : Q) : HistoryPoint :=
  {| timestamp := t; totalLiquidity := liquidityValue;
     holderCount := holdersValue |}.

(** The history of the specification's example: holders 100, 150, 200. *)
Definition risingHistory : list HistoryPoint :=
  [point 60000 500 100; point 120000 500 150; point 180000 500 200].



(** The regression both components spell out over [xPoints] (the indices)
    and [yPoints] (the metric values). *)
Module Regression.

Definition indices {A : Type} (data : list A) : list Q :=
  imap (λ i _, inject_Z (Z.of_nat i)) data.

(** [v.reduce((a, b) => a + b, 0) / v.length] *)
Definition mean (v : list Q) : Q :=
  (Js.reduce (λ a b _, a + b) v 0 / inject_Z (Z.of_nat (length v)))%Q.

(** [xPoints.reduce((acc, x, i) =>
       acc + (x - xMean) * (yPoints[i] - yMean), 0)] *)
Definition numerator (xPoints yPoints : list Q) (xMean yMean : Q) : Q :=
  Js.reduce (λ acc x i, acc + (x - xMean) * (nth i yPoints 0 - yMean))%Q
            xPoints 0%Q.

(** [xPoints.reduce((acc, x) => acc + Math.pow(x - xMean, 2), 0)] *)
Definition denominator (xPoints : list Q) (xMean : Q) : Q :=
  Js.reduce (λ acc x _, acc + (x - xMean) ^ 2)%Q xPoints 0%Q.

Definition slope (yPoints : list Q) : Q :=
  let xPoints := indices yPoints in
  let xMean := mean xPoints in
  let yMean := mean yPoints in
  (numerator xPoints yPoints xMean yMean / denominator xPoints xMean)%Q.

End Regression.

(** ** The list's trend calculator: [calculateTrend] *)

Module Trend.

Definition threshold : Q := 0.05.

(** [Math.abs(slope) < threshold ? 'stagnant' : slope > 0 ? 'up' : 'down'] *)
Definition classify (slope : Q) : TrendDirection :=
  if Qltb (Qabs slope) threshold then stagnant
  else if Qgtb slope 0 then up else down.

Definition calculateTrend (history : list HistoryPoint) (type : Metric)
    : TrendDirection :=
  if (length history <? 2)%nat then stagnant
  else
    let sortedHistory := sortByTimestamp history in
    let data := map (λ record, (timestamp record, metricOf type record))
                    sortedHistory in
    let yPoints := map snd data in
    classify (Regression.slope yPoints).

End Trend.

(** ** The chart's trend: [dataMemo] and [trendInfo] of [TokenChart] *)

Module Chart.

Definition MAX_DATA_POINTS : Z := 200.
Definition MIN_DATA_POINT_DISTANCE : Z := 60000.

(** One step of [sortedData.forEach]: the state is [sampledData] (in push
    order) and [lastTimestamp].  The metric fields of a [HistoryPoint] are
    numbers, so only the timestamp test can skip a point. *)
Definition samplePoint (acc : list HistoryPoint * Z) (point : HistoryPoint)
    : list HistoryPoint * Z :=
  let '(sampledData, lastTimestamp) := acc in
  if (timestamp point =? 0)%Z then acc
  else if (MIN_DATA_POINT_DISTANCE <=? timestamp point - lastTimestamp)%Z
       then (sampledData ++ [point], timestamp point)
       else acc.

Definition sampledData (sortedData : list HistoryPoint) : list HistoryPoint :=
  fst (fold_left samplePoint sortedData ([], 0%Z)).

(** [Math.ceil(n / MAX_DATA_POINTS)] for a non-negative length [n]. *)
Definition stepFor (n : Z) : Z :=
  ((n + MAX_DATA_POINTS - 1) / MAX_DATA_POINTS)%Z.

(** [sampledData.filter((_, index) => index % step === 0)] *)
Definition everyNth (step : Z) (l : list HistoryPoint) : list HistoryPoint :=
  map snd
    (List.filter (λ p : nat * HistoryPoint, (Z.of_nat (fst p) mod step =? 0)%Z)
                 (imap (λ i x, (i, x)) l)).

Definition finalData (sampled : list HistoryPoint) : list HistoryPoint :=
  if (MAX_DATA_POINTS <? Z.of_nat (length sampled))%Z
  then everyNth (stepFor (Z.of_nat (length sampled))) sampled
  else sampled.

(** The points handed to the chart: [x] in seconds, [y] the metric. *)
Definition dataMemo (history : list HistoryPoint) (type : Metric)
    : list (Z * Q) :=
  match history with
  | [] => []
  | _ =>
      let sortedData := sortByTimestamp history in
      map (λ point, ((timestamp point / 1000)%Z, metricOf type point))
          (finalData (sampledData sortedData))
  end.

(** [trendInfo().trendDirection] *)
Definition trendDirection (history : list HistoryPoint) (type : Metric)
    : TrendDirection :=
  let data := dataMemo history type in
  if (length data <? 2)%nat then stagnant
  else
    let yValues := map snd data in
    let slope := Regression.slope yValues in
    if Qgtb slope 0.05 then up
    else if Qltb slope (-0.05) then down
    else stagnant.

End Chart.

(** ** Row measurements, expansion and scrolling in [TokenEventsList] *)

Module Rows.

Definition COLLAPSED_HEIGHT : Q := 42.
Definition EXPANDED_HEIGHT : Q := 800.

(** The scroll container element, as far as the handlers touch it. *)
Record ScrollContainer := {
  scrollTop : Q;
  clientHeight : Q
}.

(** A callback handed to [requestAnimationFrame]. *)
Inductive FrameTask :=
| RestoreScroll (currentScroll : Q)
    (** [if (scrollContainerRef) scrollContainerRef.scrollTop = currentScroll] *)
| ScrollToIndex (index : Z)
    (** [virtualizer().scrollToIndex(index, { align: 'start', ... })] *).

Record State := {
  filters : FilterState;
  expandedTokens : gset string;
  measuredHeights : gmap Z Q;
  scrollContainerRef : option ScrollContainer;
  (** [localStorage[STORAGE_KEY]] *)
  savedFilters : option FilterState;
  (** callbacks waiting for the next animation frame, oldest first *)
  frameQueue : list FrameTask
}.

Definition set_measuredHeights (st : State) (m : gmap Z Q) : State :=
  {| filters := filters st; expandedTokens := expandedTokens st;
     measuredHeights := m; scrollContainerRef := scrollContainerRef st;
     savedFilters := savedFilters st; frameQueue := frameQueue st |}.

Definition set_expandedTokens (st : State) (e : gset string) : State :=
  {| filters := filters st; expandedTokens := e;
     measuredHeights := measuredHeights st;
     scrollContainerRef := scrollContainerRef st;
     savedFilters := savedFilters st; frameQueue := frameQueue st |}.

Definition requestAnimationFrame (st : State) (task : FrameTask) : State :=
  {| filters := filters st; expandedTokens := expandedTokens st;
     measuredHeights := measuredHeights st;
     scrollContainerRef := scrollContainerRef st;
     savedFilters := savedFilters st; frameQueue := frameQueue st ++ [task] |}.

(** [if (scrollContainerRef) scrollContainerRef.scrollTop = offset] *)
Definition set_scrollTop (st : State) (offset : Q) : State :=
  {| filters := filters st; expandedTokens := expandedTokens st;
     measuredHeights := measuredHeights st;
     scrollContainerRef :=
       match scrollContainerRef st with
       | Some el => Some {| scrollTop := offset; clientHeight := clientHeight el |}
       | None => None
       end;
     savedFilters := savedFilters st; frameQueue := frameQueue st |}.

(** [scrollContainerRef?.scrollTop || 0] *)
Definition currentScroll (st : State) : Q :=
  match scrollContainerRef st with
  | Some el => scrollTop el
  | None => 0
  end.

Definition rows (tokens : list Token) (st : State) : list Token :=
  Pipeline.filteredTokens tokens (filters st).

Definition toggleTokenExpansion (st : State) (tokenAddress : string) : State :=
  set_expandedTokens st
    (if decide (tokenAddress ∈ expandedTokens st)
     then expandedTokens st ∖ {[tokenAddress]}
     else expandedTokens st ∪ {[tokenAddress]}).

Definition estimateSize (tokens : list Token) (st : State) (index : Z) : Q :=
  match Js.at_index (rows tokens st) index with
  | None => COLLAPSED_HEIGHT
  | Some token =>
      let fallback :=
        if decide (tokenAddress token ∈ expandedTokens st)
        then EXPANDED_HEIGHT else COLLAPSED_HEIGHT in
      match measuredHeights st !! index with
      | Some measuredHeight =>
          if Qeq_bool measuredHeight 0 then fallback else measuredHeight
      | None => fallback
      end
  end.

Definition handleTokenClick (tokens : list Token) (st : State)
    (address : string) : State :=
  (* [const currentScroll = scrollContainerRef?.scrollTop || 0] is read
     here and not used again in the handler. *)
  let st := toggleTokenExpansion st address in
  let index :=
    Js.findIndex (λ t, String.eqb (tokenAddress t) address) (rows tokens st) in
  let newHeights := delete index (measuredHeights st) in
  let st := set_measuredHeights st newHeights in
  if (0 <=? index)%Z then requestAnimationFrame st (ScrollToIndex index)
  else st.

(** [updateFilters]: the argument is a new state or an updater. *)
Definition updateFilters (st : State)
    (newFilters : FilterState + (FilterState → FilterState)) : State :=
  let prev := filters st in
  let updated :=
    match newFilters with
    | inl value => value
    | inr update => update prev
    end in
  let st := set_scrollTop st 0 in
  {| filters := updated; expandedTokens := expandedTokens st;
     measuredHeights := ∅; scrollContainerRef := scrollContainerRef st;
     savedFilters := Some updated; frameQueue := frameQueue st |}.

(** One [ResizeObserver] entry: the row's [data-index] (or [-1]) and the
    height of its bounding box. *)
Definition ResizeEntry : Type := Z * Q.

Definition observeEntry (acc : gmap Z Q * bool) (entry : ResizeEntry)
    : gmap Z Q * bool :=
  let '(newHeights, needsRemeasure) := acc in
  let '(index, currentHeight) := entry in
  if (0 <=? index)%Z then
    match newHeights !! index with
    | Some prevHeight =>
        if Qeq_bool prevHeight currentHeight then acc
        else (<[index := currentHeight]> newHeights, true)
    | None => (<[index := currentHeight]> newHeights, true)
    end
  else acc.

(** The [ResizeObserver] callback. *)
Definition onResizeEntries (st : State) (entries : list ResizeEntry) : State :=
  let '(newHeights, needsRemeasure) :=
    fold_left observeEntry entries (measuredHeights st, false) in
  if needsRemeasure then
    let offset := currentScroll st in
    let st := set_measuredHeights st newHeights in
    requestAnimationFrame st (RestoreScroll offset)
  else st.


(** *** Layout of the virtualizer *)

(** Modelled from the spec: the virtualizer is an external collaborator;
    its layout follows section 4.6: rows are stacked in index order, each
    as tall as [estimateSize] says, and a row's offset is the cumulative
    size of the rows before it. *)
Definition rowStart (tokens : list Token) (st : State) (index : nat) : Q :=
  fold_left (λ acc j, acc + estimateSize tokens st (Z.of_nat j))%Q
            (seq 0 index) 0%Q.

Definition rowEnd (tokens : list Token) (st : State) (index : nat) : Q :=
  (rowStart tokens st index + estimateSize tokens st (Z.of_nat index))%Q.

(** Modelled from the spec: the visible window of section 4.6, the rows
    whose extent intersects the viewport (overscan left out). *)
Definition visibleRows (tokens : list Token) (st : State) : list nat :=
  match scrollContainerRef st with
  | None => []
  | Some el =>
      List.filter
        (λ i, Qltb (rowStart tokens st i) (scrollTop el + clientHeight el)
              && Qltb (scrollTop el) (rowEnd tokens st i))
        (seq 0 (length (rows tokens st)))
  end.


(** Modelled from the spec: the virtualizer is an external collaborator
    (section 1); [scrollToIndex] with [align: 'start'] is read as its name
    and option say, it brings the start edge of the row to the top of the
    viewport. *)
Definition scrollToIndex (tokens : list Token) (st : State) (index : Z) : State :=
  set_scrollTop st (rowStart tokens st (Z.to_nat index)).

Definition runFrameTask (tokens : list Token) (st : State) (task : FrameTask)
    : State :=
  match task with
  | RestoreScroll offset => set_scrollTop st offset
  | ScrollToIndex index => scrollToIndex tokens st index
  end.


(** Twelve collapsed rows in a viewport three rows high, scrolled so that
    rows 8, 9 and 10 show. *)
Definition rowToken (i : nat) : Token :=
  with_numbers (plainToken (String (Ascii.ascii_of_nat (65 + i)) EmptyString))
    (inject_Z (Z.of_nat i)) 10 1000.

Definition twelveTokens : list Token := map rowToken (seq 0 12).

Definition scrolledDown : State :=
  {| filters := defaultFilters; expandedTokens := ∅; measuredHeights := ∅;
     scrollContainerRef := Some {| scrollTop := 336; clientHeight := 126 |};
     savedFilters := None; frameQueue := [] |}.

End Rows.

(** ** Vocabulary of the specification *)

Module Spec.

(** The precedence as the specification words it: honeypot or an
    ownership-abuse signal gives danger; proxy, mintable, high tax or a
    mutable slippage gives warning; anything else is safe. *)
Definition ownershipAbuse (t : Token) : bool :=
  gpCanTakeBackOwnership t || gpHiddenOwner t || gpOwnerChangeBalance t.

Definition statedWarning (t : Token) : bool :=
  gpIsProxy t || gpIsMintable t
  || Qgtb (gpBuyTax t) 10 || Qgtb (gpSellTax t) 10
  || gpSlippageModifiable t || gpPersonalSlippageModifiable t.

Definition statedRiskLevel (t : Token) : RiskLevel :=
  if hpIsHoneypot t || ownershipAbuse t then danger
  else if statedWarning t then warning
  else safe.

(** The signals the handler really consults, by class. *)
Definition dangerSignal (t : Token) : bool :=
  hpIsHoneypot t || gpCanTakeBackOwnership t || gpHiddenOwner t
  || gpOwnerChangeBalance t || gpIsAirdropScam t
  || gpHoneypotWithSameCreator t || gpFakeToken t
  || negb (gpIsOpenSource t).

Definition warningSignal (t : Token) : bool :=
  gpIsProxy t || gpIsMintable t || gpSlippageModifiable t
  || gpPersonalSlippageModifiable t || gpCannotSellAll t
  || gpTradingCooldown t || gpTransferPausable t
  || Qgtb (gpBuyTax t) 10 || Qgtb (gpSellTax t) 10.

Definition classification (t : Token) : RiskLevel :=
  if dangerSignal t then danger
  else if warningSignal t then warning
  else safe.

(** A stored record is fresh when its [riskLevel] is the classification of
    its other fields. *)
Definition fresh (t : Token) : Prop :=
  riskLevel t = Some (classification t).

(** Every record of a store is fresh. *)
Definition all_fresh (s : App.Items) : Prop :=
  ∀ a r, App.lookup_item a s = Some r → fresh r.

(** The last record of a batch that carries a given address. *)
Fixpoint lastFor (a : string) (data : list Token) : option Token :=
  match data with
  | [] => None
  | t :: rest =>
      match lastFor a rest with
      | Some t' => Some t'
      | None => if decide (tokenAddress t = a) then Some t else None
      end
  end.

(** *** Filter predicates, as the specification lists them *)

(** [name], [symbol] or [address] contains the query, letter case aside. *)
Definition containsQuery (t : Token) (query : string) : Prop :=
  ∃ (hay : string) (before after : string),
    (hay = tokenName t ∨ hay = tokenSymbol t ∨ hay = tokenAddress t)
    ∧ Js.toLowerCase hay = before +:+ Js.toLowerCase query +:+ after.

(** At least 90 percent of the liquidity is held by locked holders. *)
Definition liquidityLocked (t : Token) : Prop :=
  ∃ lpHolders,
    (gpLpHolders t = LpParsed lpHolders)
    ∧ (90 <= Pipeline.totalLocked lpHolders)%Q.

(** Every enabled predicate holds of the record. *)
Definition satisfiesAll (f : FilterState) (t : Token) : Prop :=
  (hideHoneypots f = true → hpIsHoneypot t = false)
  ∧ (showOnlyHoneypots f = true → hpIsHoneypot t = true)
  ∧ (hideDanger f = true → riskLevel t ≠ Some danger)
  ∧ (hideWarning f = true → riskLevel t ≠ Some warning)
  ∧ (showOnlySafe f = true → riskLevel t = Some safe)
  ∧ (hideNotRenounced f = true → gpOwnerAddress t = Pipeline.ZERO_ADDRESS)
  ∧ (hideUnlockedLiquidity f = true → liquidityLocked t)
  ∧ ((0 < minHolders f)%Q → (minHolders f <= gpHolderCount t)%Q)
  ∧ ((0 < minLiquidity f)%Q → (minLiquidity f <= hpLiquidityAmount t)%Q)
  ∧ (searchQuery f ≠ "" → containsQuery t (searchQuery f)).

(** *** Sort keys *)

(** The value a record is ordered by under the selected field; an unknown
    field orders nothing. *)
Definition sortKey (f : FilterState) (t : Token) : Q :=
  let field := Pipeline.field (sortBy f) in
  if String.eqb field "age" then tokenAgeHours t
  else if String.eqb field "holders" then gpHolderCount t
  else if String.eqb field "liquidity" then hpLiquidityAmount t
  else if String.eqb field "safetyScore" then Pipeline.getRiskScore t
  else 0%Q.

(** [1] when the output ascends in the key, [-1] when it descends. *)
Definition sortSign (f : FilterState) : Q :=
  let field := Pipeline.field (sortBy f) in
  if String.eqb field "age" then (- Pipeline.direction (sortBy f))%Q
  else Pipeline.direction (sortBy f).

(** [a] stands somewhere before [b] in [l]. *)
Definition before {A : Type} (a b : A) (l : list A) : Prop :=
  ∃ l1 l2 l3, l = l1 ++ a :: l2 ++ b :: l3.

End Spec.

(** ** Vocabulary for the regression *)

Module Stats.

Local Open Scope Q_scope.


Definition count {A : Type} (l : list A) : Q := inject_Z (Z.of_nat (length l)).

(** The sample points of a series: the index is the abscissa. *)
Fixpoint pointsFrom (k : nat) (ys : list Q) : list (Q * Q) :=
  match ys with
  | [] => []
  | y :: rest => (inject_Z (Z.of_nat k), y) :: pointsFrom (S k) rest
  end.















End Stats.

(** Every point is at least a minute after the one before it, the first
    one at least a minute after time zero: the chart's sampling keeps all
    of such a history. *)
Fixpoint spaced (lastTimestamp : Z) (sortedData : list HistoryPoint) : Prop :=
  match sortedData with
  | [] => True
  | point :: rest =>
      (Chart.MIN_DATA_POINT_DISTANCE ≤ timestamp point - lastTimestamp)%Z
      ∧ spaced (timestamp point) rest
  end.

(** The metric values of a history in time order: the series the trend
    calculator regresses over. *)
Definition series (history : list HistoryPoint) (type : Metric) : list Q :=
  map (metricOf type) (sortByTimestamp history).

(** * Further components *)

(** ** More of the token list: search, badges, bulk expansion, positions *)

Module ListView.





(** The click handler of the Expand All / Collapse All button. *)
Definition toggleAll (tokens : list Token) (st : Rows.State) : Rows.State :=
  let currentTokens := Rows.rows tokens st in
  let prev := Rows.expandedTokens st in
  let hasExpanded :=
    existsb (λ token, bool_decide (tokenAddress token ∈ prev)) currentTokens in
  Rows.set_expandedTokens st
    (if hasExpanded then ∅
     else list_to_set (map tokenAddress currentTokens)).

(** [expandedTokens().has(token.tokenAddress) ? EXPANDED_HEIGHT : COLLAPSED_HEIGHT] *)
Definition rowHeight (st : Rows.State) (token : Token) : Q :=
  if decide (tokenAddress token ∈ Rows.expandedTokens st)
  then Rows.EXPANDED_HEIGHT else Rows.COLLAPSED_HEIGHT.

(** [calculatePositions]: the loop state is the map and [currentPosition]. *)
Definition placeToken (st : Rows.State) (acc : gmap string Q * Q) (token : Token)
    : gmap string Q * Q :=
  let '(positions, currentPosition) := acc in
  (<[tokenAddress token := currentPosition]> positions,
   (currentPosition + rowHeight st token)%Q).

Definition calculatePositions (tokens : list Token) (st : Rows.State)
    : gmap string Q :=
  fst (fold_left (placeToken st) (Rows.rows tokens st) (∅, 0%Q)).

(** [totalHeight] *)
Definition totalHeight (tokens : list Token) (st : Rows.State) : Q :=
  fold_left (λ height token, height + rowHeight st token)%Q
            (Rows.rows tokens st) 0%Q.

(** *** Histories and trends kept by the list *)

(** [{ liquidity, holders }], one entry of [tokenTrends]. *)
Record Trends := {
  liquidityTrend : TrendDirection;
  holdersTrend : TrendDirection
}.

Record Histories := {
  tokenHistories : gmap string (list HistoryPoint);
  tokenTrends : gmap string Trends
}.

(** [updateTokenTrends] *)
Definition updateTokenTrends (hs : Histories) (address : string)
    (history : list HistoryPoint) : Histories :=
  let liquidityTrend := Trend.calculateTrend history liquidity in
  let holdersTrend := Trend.calculateTrend history holders in
  {| tokenHistories := tokenHistories hs;
     tokenTrends :=
       <[address := {| liquidityTrend := liquidityTrend;
                       holdersTrend := holdersTrend |}]> (tokenTrends hs) |}.

(** [fetchTokenHistory], once the request has settled: [response] is the
    [data.history] array, or nothing when the request failed or the
    payload carried no array (the [catch] branch only logs). *)
Definition fetchTokenHistory (hs : Histories) (address : string)
    (response : option (list HistoryPoint)) : Histories :=
  match response with
  | Some history =>
      updateTokenTrends
        {| tokenHistories := <[address := history]> (tokenHistories hs);
           tokenTrends := tokenTrends hs |}
        address history
  | None => hs
  end.

(** [tokenTrends().get(address) || { liquidity: 'stagnant', holders: 'stagnant' }] *)
Definition shownTrends (hs : Histories) (address : string) : Trends :=
  default {| liquidityTrend := stagnant; holdersTrend := stagnant |}
          (tokenTrends hs !! address).

(** [Array.from(new Set(l))]: the first occurrence of each element, in order. *)
Fixpoint setOrder {A : Type} `{EqDecision A} (l : list A) : list A :=
  match l with
  | [] => []
  | x :: rest => x :: List.filter (λ y, negb (bool_decide (y = x))) (setOrder rest)
  end.

(** The effect that fetches histories for the visible rows: the addresses
    it calls [fetchTokenHistory] for, in call order.  [virtualIndices] are
    the row indices the virtualizer reports. *)
Definition historiesToFetch (tokens : list Token) (st : Rows.State)
    (virtualIndices : list Z) (hs : Histories) : list string :=
  let visibleTokens :=
    map (λ index, Js.at_index (Rows.rows tokens st) index) virtualIndices in
  let uniqueTokens := setOrder (map (fmap tokenAddress) visibleTokens) in
  omap (λ address : option string,
          match address with
          | Some a =>
              if negb (String.eqb a EmptyString)
                 && negb (bool_decide (is_Some (tokenHistories hs !! a)))
              then Some a else None
          | None => None
          end)
       uniqueTokens.

(** What the list can hold of histories and trends: it starts from the
    cached histories with no trends, and every later state comes from the
    answer to a request the effect above made from some state in
    between. *)
Inductive session (cached : gmap string (list HistoryPoint)) : Histories → Prop :=
| session_start :
    session cached {| tokenHistories := cached; tokenTrends := ∅ |}
| session_response hs planned tokens st virtualIndices address response :
    session cached hs →
    session cached planned →
    address ∈ historiesToFetch tokens st virtualIndices planned →
    session cached (fetchTokenHistory hs address response).

End ListView.

(** How many tokens of a list are expanded. *)
Definition expandedAmong (st : Rows.State) (l : list Token) : Q :=
  Stats.count
    (List.filter (λ t, bool_decide (tokenAddress t ∈ Rows.expandedTokens st)) l).

(** ** The expanded card: [getWarningReasons] *)

Module Card.

(** The three flags of a token that only the card reads. *)
Record MoreFlags := {
  gpHasProxyCalls : bool;
  gpCannotBuy : bool;
  gpIsBlacklisted : bool
}.

(** The messages [getWarningReasons] can push, one constructor each; the
    two tax messages carry the tax they quote. *)
Inductive Reason :=
| NotOpenSource | UsesProxy | Mintable | HasProxyCalls
| BuyingRestricted | CannotSellAll | TradingCooldown | TransfersPausable
| SlippageModifiable | PersonalSlippageModifiable
| HiddenOwner | OwnershipTakenBack | OwnerChangesBalances
| HighBuyTax (tax : Q) | HighSellTax (tax : Q)
| AirdropScam | CreatorHoneypots | FakeToken | Blacklisted.

(** [if (flag) reasons.push(reason)] *)
Definition pushIf (flag : bool) (reason : Reason) (reasons : list Reason)
    : list Reason :=
  if flag then reasons ++ [reason] else reasons.

Definition getWarningReasons (token : Token) (more : MoreFlags) : list Reason :=
  let reasons := [] in
  let reasons := pushIf (negb (gpIsOpenSource token)) NotOpenSource reasons in
  let reasons := pushIf (gpIsProxy token) UsesProxy reasons in
  let reasons := pushIf (gpIsMintable token) Mintable reasons in
  let reasons := pushIf (gpHasProxyCalls more) HasProxyCalls reasons in
  let reasons := pushIf (gpCannotBuy more) BuyingRestricted reasons in
  let reasons := pushIf (gpCannotSellAll token) CannotSellAll reasons in
  let reasons := pushIf (gpTradingCooldown token) TradingCooldown reasons in
  let reasons := pushIf (gpTransferPausable token) TransfersPausable reasons in
  let reasons := pushIf (gpSlippageModifiable token) SlippageModifiable reasons in
  let reasons :=
    pushIf (gpPersonalSlippageModifiable token) PersonalSlippageModifiable
           reasons in
  let reasons := pushIf (gpHiddenOwner token) HiddenOwner reasons in
  let reasons := pushIf (gpCanTakeBackOwnership token) OwnershipTakenBack reasons in
  let reasons := pushIf (gpOwnerChangeBalance token) OwnerChangesBalances reasons in
  let reasons :=
    pushIf (Qgtb (gpBuyTax token) 10) (HighBuyTax (gpBuyTax token)) reasons in
  let reasons :=
    pushIf (Qgtb (gpSellTax token) 10) (HighSellTax (gpSellTax token)) reasons in
  let reasons := pushIf (gpIsAirdropScam token) AirdropScam reasons in
  let reasons := pushIf (gpHoneypotWithSameCreator token) CreatorHoneypots reasons in
  let reasons := pushIf (gpFakeToken token) FakeToken reasons in
  let reasons := pushIf (gpIsBlacklisted more) Blacklisted reasons in
  reasons.

End Card.

(** ** The chart's trend line and its vertical scale *)

Module Scale.

Definition MIN_RANGE_PERCENT : Q := 0.1.
Definition PADDING_PERCENT : Q := 0.2.

(** [Math.min(...values)] and [Math.max(...values)] for at least one value
    (every call below is guarded by a length test; with no argument
    JavaScript answers an infinity, which is outside the model). *)
Definition minOf (values : list Q) : Q :=
  match values with
  | [] => 0%Q
  | v :: rest => fold_left Qmin rest v
  end.

Definition maxOf (values : list Q) : Q :=
  match values with
  | [] => 0%Q
  | v :: rest => fold_left Qmax rest v
  end.

(** [trendInfo().trendData] of [TokenChart]. *)
Definition trendData (history : list HistoryPoint) (type : Metric)
    : list (Z * Q) :=
  let data := Chart.dataMemo history type in
  if (length data <? 2)%nat then []
  else
    let yValues := map snd data in
    let xValues := Regression.indices yValues in
    let xMean := Regression.mean xValues in
    let yMean := Regression.mean yValues in
    let slope := Regression.slope yValues in
    let intercept := (yMean - slope * xMean)%Q in
    let initialTrendPoints := map (λ x, slope * x + intercept)%Q xValues in
    let dataMin := minOf yValues in
    let dataMax := maxOf yValues in
    let dataMidpoint := ((dataMax + dataMin) / 2)%Q in
    let trendMin := minOf initialTrendPoints in
    let trendMax := maxOf initialTrendPoints in
    let trendMidpoint := ((trendMax + trendMin) / 2)%Q in
    let verticalShift := (dataMidpoint - trendMidpoint)%Q in
    let intercept := (intercept + verticalShift)%Q in
    imap (λ i d, (fst d, (slope * inject_Z (Z.of_nat i) + intercept)%Q)) data.

(** [{ min, max }] for the y axis. *)
Record Bounds := {
  min : Q;
  max : Q
}.

(** [getDynamicBounds] of [TokenChart]. *)
Definition getDynamicBounds (data trendData : list (Z * Q)) : Bounds :=
  match data, trendData with
  | [], _ | _, [] => {| min := 0; max := 0 |}
  | _, _ =>
      let values := map snd data in
      let trendValues := map snd trendData in
      let dataMin := minOf values in
      let dataMax := maxOf values in
      let trendMin := minOf trendValues in
      let trendMax := maxOf trendValues in
      let absoluteMin := Qmin dataMin trendMin in
      let absoluteMax := Qmax dataMax trendMax in
      let range := (absoluteMax - absoluteMin)%Q in
      let midpoint := ((absoluteMax + absoluteMin) / 2)%Q in
      let minRange :=
        Qmax (Qmax range (absoluteMax * MIN_RANGE_PERCENT)%Q)
             (Qabs midpoint * 0.2)%Q in
      let paddedRange := (minRange * (1 + PADDING_PERCENT * 2))%Q in
      let halfRange := (paddedRange / 2)%Q in
      {| min := (midpoint - halfRange)%Q; max := (midpoint + halfRange)%Q |}
  end.

End Scale.

(** ** The miniature chart *)

Module MiniChart.

(** [dataMemo]: every point, in time order. *)
Definition dataMemo (history : list HistoryPoint) (type : Metric)
    : list (Z * Q) :=
  match history with
  | [] => []
  | _ =>
      let sortedData := sortByTimestamp history in
      map (λ point, ((timestamp point / 1000)%Z, metricOf type point))
          sortedData
  end.

(** [trendInfo().trendDirection] *)
Definition trendDirection (history : list HistoryPoint) (type : Metric)
    : TrendDirection :=
  let data := dataMemo history type in
  if (length data <? 2)%nat then stagnant
  else
    let yValues := map snd data in
    let slope := Regression.slope yValues in
    if Qltb (Qabs slope) 0.05 then stagnant
    else if Qgtb slope 0 then up else down.

(** [getDynamicBounds] *)
Definition getDynamicBounds (data : list (Z * Q)) : Scale.Bounds :=
  match data with
  | [] => {| Scale.min := 0; Scale.max := 0 |}
  | _ =>
      let values := map snd data in
      let min := Scale.minOf values in
      let max := Scale.maxOf values in
      let range := (max - min)%Q in
      let midpoint := ((max + min) / 2)%Q in
      let minRange :=
        Qmax (Qmax range (max * Scale.MIN_RANGE_PERCENT)%Q)
             (Qabs midpoint * 0.2)%Q in
      let paddedRange := (minRange * (1 + Scale.PADDING_PERCENT * 2))%Q in
      let halfRange := (paddedRange / 2)%Q in
      {| Scale.min := (midpoint - halfRange)%Q;
         Scale.max := (midpoint + halfRange)%Q |}
  end.

(** The bounds [createOrUpdateChart] uses for a non-empty [data]. *)
Definition chartBounds (dynamicScaling : bool) (data : list (Z * Q))
    : Scale.Bounds :=
  if dynamicScaling then getDynamicBounds data
  else {| Scale.min := (Scale.minOf (map snd data) * 0.95)%Q;
          Scale.max := (Scale.maxOf (map snd data) * 1.05)%Q |}.

End MiniChart.

(** ** Token price from the pair reserves ([calculateTokenPrice]) *)

Module Price.




End Price.

(** ** [throttle] *)

Module Throttle.

Section Throttled.
Context {Args : Type}.

(** The closure state: the pending timer, if any, with the arguments and
    the delay it was armed with, and [previous]. *)
Record State := {
  timeout : option (Args * Z);
  previous : Z
}.

Definition fresh : State := {| timeout := None; previous := 0 |}.

(** One call of [throttled(...args)] at time [now = Date.now()]: the new
    state and the arguments [func] is called with during the call. *)
Definition throttled (wait : Z) (st : State) (now : Z) (args : Args)
    : State * list Args :=
  let previous := if (previous st =? 0)%Z then now else previous st in
  let remaining := (wait - (now - previous))%Z in
  if (remaining <=? 0)%Z || (wait <? remaining)%Z then
    ({| timeout := None; previous := now |}, [args])
  else
    match timeout st with
    | None => ({| timeout := Some (args, remaining); previous := previous |}, [])
    | Some _ => ({| timeout := timeout st; previous := previous |}, [])
    end.

(** The pending timer fires at time [now]. *)
Definition timerFires (st : State) (now : Z) : State * list Args :=
  match timeout st with
  | Some (args, _) => ({| timeout := None; previous := now |}, [args])
  | None => (st, [])
  end.

(** [throttled.cancel()] *)
Definition cancel (st : State) : State := {| timeout := None; previous := 0 |}.

(** *** The throttled function in the event loop *)

(** What happens to a throttled function: it is called, or its pending
    timer runs. *)
Inductive Event :=
| Call (now : Z) (args : Args)
| TimerFires (now : Z).

Definition timeOf (event : Event) : Z :=
  match event with
  | Call now _ => now
  | TimerFires now => now
  end.

Definition step (wait : Z) (st : State) (event : Event) : State * list Args :=
  match event with
  | Call now args => throttled wait st now args
  | TimerFires now => timerFires st now
  end.

(** The calls of [func] a sequence of events leads to, each with its time. *)
Fixpoint run (wait : Z) (st : State) (events : list Event) : list (Z * Args) :=
  match events with
  | [] => []
  | event :: rest =>
      let '(st', calls) := step wait st event in
      map (λ args, (timeOf event, args)) calls ++ run wait st' rest
  end.

(** When the pending timer is due: [setTimeout(f, remaining)] called at
    [now] is due at [now + remaining]; a timer that stays pending keeps
    its time. *)
Definition dueAfter (due : option Z) (st st' : State) (now : Z) : option Z :=
  match timeout st' with
  | None => None
  | Some (_, remaining) =>
      match timeout st with
      | Some _ => due
      | None => Some (now + remaining)%Z
      end
  end.

(** The contract of the clock and of [setTimeout]: [Date.now()] is
    positive and never goes back, and a timer runs only when one is
    pending, no earlier than it is due. *)
Fixpoint onTime (wait : Z) (st : State) (clock : Z) (due : option Z)
    (events : list Event) : Prop :=
  match events with
  | [] => True
  | event :: rest =>
      (0 < timeOf event)%Z ∧ (clock ≤ timeOf event)%Z
      ∧ match event with
        | Call _ _ => True
        | TimerFires now => ∃ d, due = Some d ∧ (d ≤ now)%Z
        end
      ∧ let st' := fst (step wait st event) in
        onTime wait st' (timeOf event) (dueAfter due st st' (timeOf event)) rest
  end.

End Throttled.

Arguments State : clear implicits.
Arguments Event : clear implicits.

End Throttle.

(** * Properties *)

(** ** Comparisons on rationals *)

Lemma Qgtb_true x y : Qgtb x y = true ↔ (y < x)%Q.
Proof.
  unfold Qgtb. rewrite negb_true_iff, <- not_true_iff_false, Qle_bool_iff.
  split; [apply Qnot_le_lt | apply Qlt_not_le].
Qed.


Lemma Qltb_false x y : Qltb x y = false ↔ (y <= x)%Q.
Proof. unfold Qltb. rewrite negb_false_iff. apply Qle_bool_iff. Qed.

Lemma Qgtb_false x y : Qgtb x y = false ↔ (x <= y)%Q.
Proof. apply (Qltb_false y x). Qed.

(** ** The token store *)

Section StoreFacts.
Import App.

Lemma lookup_assign k v a (s : Items) :
  lookup_item a (assign k v s) = if decide (k = a) then Some v else lookup_item a s.
Proof.
  induction s as [|[k' v'] s IH]; simpl.
  - done.
  - destruct (decide (k' = k)) as [->|Hne]; simpl.
    + by destruct (decide (k = a)).
    + rewrite IH. destruct (decide (k' = a)) as [->|]; [|done].
      by rewrite decide_False.
Qed.

Lemma lookup_item_None a (s : Items) : a ∉ keys s → lookup_item a s = None.
Proof.
  induction s as [|[k v] s IH]; simpl; [done|].
  rewrite not_elem_of_cons. intros [Hne Hnin].
  rewrite decide_False by done. by apply IH.
Qed.

Lemma lookup_item_Some a r (s : Items) : lookup_item a s = Some r → (a, r) ∈ s.
Proof.
  induction s as [|[k v] s IH]; simpl; [done|].
  destruct (decide (k = a)) as [->|].
  - intros [= ->]. left.
  - intros H. right. by apply IH.
Qed.

Lemma elem_of_items_lookup a r (s : Items) :
  NoDup (keys s) → (a, r) ∈ s → lookup_item a s = Some r.
Proof.
  induction s as [|[k v] s IH]; simpl.
  - by rewrite elem_of_nil.
  - rewrite NoDup_cons, elem_of_cons. intros [Hk Hnd] [[= -> ->]|Hin].
    + by rewrite decide_True.
    + rewrite decide_False; [by apply IH|].
      intros ->. apply Hk. unfold keys.
      apply (list_elem_of_fmap_2 fst) in Hin. exact Hin.
Qed.

Lemma keys_assign_present k v (s : Items) :
  k ∈ keys s → keys (assign k v s) = keys s.
Proof.
  induction s as [|[k' v'] s IH]; simpl.
  - by rewrite elem_of_nil.
  - destruct (decide (k' = k)) as [->|Hne]; simpl; [done|].
    rewrite elem_of_cons. intros [->|Hin]; [done|]. by rewrite IH.
Qed.

Lemma keys_assign_absent k v (s : Items) :
  k ∉ keys s → keys (assign k v s) = keys s ++ [k].
Proof.
  induction s as [|[k' v'] s IH]; simpl; [done|].
  rewrite not_elem_of_cons. intros [Hne Hnin].
  rewrite decide_False by done. simpl. by rewrite IH.
Qed.

Lemma NoDup_keys_assign k v (s : Items) :
  NoDup (keys s) → NoDup (keys (assign k v s)).
Proof.
  intros Hnd. destruct (decide (k ∈ keys s)) as [Hin|Hnin].
  - by rewrite keys_assign_present.
  - rewrite keys_assign_absent by done.
    apply NoDup_app. split_and!; [done| |apply NoDup_singleton].
    intros x Hx ->%list_elem_of_singleton. done.
Qed.

Lemma elem_of_keys_assign k v a (s : Items) :
  a ∈ keys (assign k v s) ↔ a = k ∨ a ∈ keys s.
Proof.
  destruct (decide (k ∈ keys s)) as [Hin|Hnin].
  - rewrite keys_assign_present by done.
    split; [by right | by intros [->|]].
  - rewrite keys_assign_absent by done.
    rewrite elem_of_app, list_elem_of_singleton. tauto.
Qed.

(** Two stores with the same property order and the same lookups are the
    same store. *)
Lemma items_ext (s1 s2 : Items) :
  NoDup (keys s1) → keys s1 = keys s2 →
  (∀ a, lookup_item a s1 = lookup_item a s2) → s1 = s2.
Proof.
  revert s2. induction s1 as [|[k v] s1 IH]; intros [|[k' v'] s2]; simpl;
    try done.
  rewrite NoDup_cons. intros [Hk Hnd] [= <- Hkeys] Hlook.
  pose proof (Hlook k) as Hk0. simpl in Hk0.
  rewrite !decide_True in Hk0 by done. injection Hk0 as <-.
  f_equal. apply IH; [done..|].
  intros a. destruct (decide (k = a)) as [<-|Hne].
  - rewrite !lookup_item_None; [done| by rewrite <- Hkeys | done].
  - specialize (Hlook a). simpl in Hlook. by rewrite !decide_False in Hlook.
Qed.

Lemma mergeBatch_cons s t data :
  mergeBatch s (t :: data) = mergeBatch (storeToken s t) data.
Proof. done. Qed.


Lemma NoDup_keys_mergeBatch data s :
  NoDup (keys s) → NoDup (keys (mergeBatch s data)).
Proof.
  revert s. induction data as [|t data IH]; intros s Hnd; [done|].
  rewrite mergeBatch_cons. apply IH, NoDup_keys_assign, Hnd.
Qed.

Lemma lookup_mergeBatch data s a :
  lookup_item a (mergeBatch s data) =
  match Spec.lastFor a data with
  | Some t => Some (processToken t)
  | None => lookup_item a s
  end.
Proof.
  revert s. induction data as [|t data IH]; intros s; [done|].
  rewrite mergeBatch_cons, IH. simpl.
  destruct (Spec.lastFor a data); [done|].
  unfold storeToken. rewrite lookup_assign.
  by destruct (decide (tokenAddress t = a)).
Qed.

Lemma lastFor_Some a data t :
  Spec.lastFor a data = Some t → t ∈ data ∧ tokenAddress t = a.
Proof.
  induction data as [|t0 data IH]; simpl; [done|].
  destruct (Spec.lastFor a data) as [t'|].
  - intros [= ->]. destruct IH as [? ?]; [done|]. split; [by right|done].
  - destruct (decide (tokenAddress t0 = a)); [|done].
    intros [= ->]. split; [left|done].
Qed.

Lemma lastFor_None a data :
  Spec.lastFor a data = None ↔ ∀ t, t ∈ data → tokenAddress t ≠ a.
Proof.
  induction data as [|t0 data IH]; simpl.
  - split; [|done]. intros _ t. by rewrite elem_of_nil.
  - destruct (Spec.lastFor a data) as [t'|] eqn:E.
    + split; [done|]. intros H. exfalso.
      apply lastFor_Some in E as [Hin Ha]. by apply (H t'); [right|].
    + destruct (decide (tokenAddress t0 = a)) as [Ha|Hne].
      * split; [done|]. intros H. exfalso. by apply (H t0); [left|].
      * split; [|done]. intros _ t. rewrite elem_of_cons.
        intros [->|Hin]; [done|]. by apply IH.
Qed.

Lemma lastFor_last a pre t post :
  tokenAddress t = a → (∀ t', t' ∈ post → tokenAddress t' ≠ a) →
  Spec.lastFor a (pre ++ t :: post) = Some t.
Proof.
  intros Ha Hpost. induction pre as [|t0 pre IH]; simpl.
  - apply lastFor_None in Hpost. rewrite Hpost. by rewrite decide_True.
  - by rewrite IH.
Qed.

Lemma keys_mergeBatch_present data s :
  (∀ t, t ∈ data → tokenAddress t ∈ keys s) → keys (mergeBatch s data) = keys s.
Proof.
  revert s. induction data as [|t data IH]; intros s H; [done|].
  rewrite mergeBatch_cons.
  assert (keys (storeToken s t) = keys s) as Hk.
  { apply keys_assign_present, H. left. }
  rewrite IH; [done|]. intros t' Hin. rewrite Hk. apply H. by right.
Qed.

Lemma keys_mergeBatch_mono data s a :
  a ∈ keys s → a ∈ keys (mergeBatch s data).
Proof.
  revert s. induction data as [|t data IH]; intros s H; [done|].
  rewrite mergeBatch_cons. apply IH. apply elem_of_keys_assign. by right.
Qed.

Lemma keys_mergeBatch_batch data s t :
  t ∈ data → tokenAddress t ∈ keys (mergeBatch s data).
Proof.
  revert s. induction data as [|t0 data IH]; intros s.
  - by rewrite elem_of_nil.
  - rewrite elem_of_cons, mergeBatch_cons. intros [->|Hin]; [|by apply IH].
    apply keys_mergeBatch_mono, elem_of_keys_assign. by left.
Qed.

Lemma mergeBatch_idempotent s data :
  NoDup (keys s) → mergeBatch (mergeBatch s data) data = mergeBatch s data.
Proof.
  intros Hnd. apply items_ext.
  - by do 2 apply NoDup_keys_mergeBatch.
  - apply keys_mergeBatch_present. intros t. apply keys_mergeBatch_batch.
  - intros a. rewrite (lookup_mergeBatch data (mergeBatch s data)).
    destruct (Spec.lastFor a data) eqn:E; [|done].
    by rewrite lookup_mergeBatch, E.
Qed.

End StoreFacts.

(** ** Risk classification of stored records (C1) *)

Section RiskFacts.
Import App.

Lemma computeRiskLevel_classification t :
  computeRiskLevel t = Spec.classification t.
Proof.
  unfold computeRiskLevel, Spec.classification, Spec.dangerSignal,
    Spec.warningSignal.
  destruct (hpIsHoneypot t); [done|]. simpl.
  destruct (gpCanTakeBackOwnership t || gpHiddenOwner t
            || gpOwnerChangeBalance t || gpIsAirdropScam t
            || gpHoneypotWithSameCreator t || gpFakeToken t
            || negb (gpIsOpenSource t)); [done|].
  by rewrite !orb_assoc.
Qed.

Lemma classification_with_riskLevel t r :
  Spec.classification (with_riskLevel t r) = Spec.classification t.
Proof. done. Qed.

Lemma fresh_processToken t : Spec.fresh (processToken t).
Proof.
  unfold Spec.fresh, processToken. rewrite classification_with_riskLevel.
  simpl. by rewrite computeRiskLevel_classification.
Qed.

(** Where a record of a merged store comes from. *)
Lemma lookup_mergeBatch_origin s data a r :
  lookup_item a (mergeBatch s data) = Some r →
  (lookup_item a s = Some r ∧ ∀ t, t ∈ data → tokenAddress t ≠ a)
  ∨ (∃ t, t ∈ data ∧ tokenAddress t = a ∧ r = processToken t).
Proof.
  rewrite lookup_mergeBatch. destruct (Spec.lastFor a data) as [t|] eqn:E.
  - intros [= <-]. right. exists t. apply lastFor_Some in E as [? ?]. done.
  - intros H. left. split; [done|]. by apply lastFor_None.
Qed.

Lemma all_fresh_mergeBatch s data : Spec.all_fresh s → Spec.all_fresh (mergeBatch s data).
Proof.
  intros Hs a r [[H _]|(t & _ & _ & ->)]%lookup_mergeBatch_origin.
  - by apply (Hs a).
  - apply fresh_processToken.
Qed.

Lemma all_fresh_onmessage st ev :
  Spec.all_fresh (items st) → Spec.all_fresh (items (onmessage st ev)).
Proof.
  intros H. destruct ev as [[d|]|[d|]|]; simpl; try done.
  - destruct (isConnected st && negb (connected d)); [|done].
    intros a r. done.
  - by apply all_fresh_mergeBatch.
Qed.

Lemma reachable_all_fresh st : reachable st → Spec.all_fresh (items st).
Proof.
  induction 1 as [|st ev _ IH].
  - intros a r. done.
  - by apply all_fresh_onmessage.
Qed.

Lemma reachable_NoDup st : reachable st → NoDup (keys (items st)).
Proof.
  induction 1 as [|st ev _ IH]; [constructor|].
  destruct ev as [[d|]|[d|]|]; simpl; try done.
  - destruct (isConnected st && negb (connected d)); [constructor|done].
  - by apply NoDup_keys_mergeBatch.
Qed.

End RiskFacts.

(** C1, as the handler implements it.  The handler's precedence consults
    more signals than the specification names: danger when the honeypot
    flag, one of the three ownership signals, the airdrop-scam, same-creator
    honeypot or fake-token flag is set or the contract is not open source;
    otherwise warning when the proxy, mintable, one of the two slippage
    flags, cannot-sell-all, trading-cooldown or transfer-pausable flag is
    set or a tax exceeds 10; otherwise safe.  Every record a batch merge
    installs carries exactly this classification, and in every state the
    shell can reach every stored record's [riskLevel] is this function of
    its other fields. *)
Theorem stored_riskLevel_is_classification :
  (∀ t, App.computeRiskLevel t = Spec.classification t)
  ∧ (∀ s data t,
       t ∈ data →
       ∃ r, App.lookup_item (tokenAddress t) (App.mergeBatch s data) = Some r
            ∧ riskLevel r = Some (Spec.classification r))
  ∧ (∀ st a r,
       App.reachable st → App.lookup_item a (App.items st) = Some r →
       riskLevel r = Some (Spec.classification r)).
Proof.
  split_and!.
  - apply computeRiskLevel_classification.
  - intros s data t Hin.
    destruct (Spec.lastFor (tokenAddress t) data) as [t'|] eqn:E.
    + exists (App.processToken t'). rewrite lookup_mergeBatch, E.
      split; [done|]. apply fresh_processToken.
    + exfalso. by eapply lastFor_None in E.
  - intros st a r Hst Hr. by apply (reachable_all_fresh st Hst a r).
Qed.

Lemma stored_riskLevel_is_classification_witness :
  App.reachable
    (App.onmessage App.initial (App.BATCH_PROCESSED (Some [closedSourceToken])))
  ∧ riskLevel (App.processToken closedSourceToken)
    = Some (Spec.classification (App.processToken closedSourceToken))
  ∧ Spec.classification (App.processToken closedSourceToken) = danger.
Proof.
  split_and!.
  - apply App.reachable_step, App.reachable_initial.
  - apply (proj2 (proj2 stored_riskLevel_is_classification)
             (App.onmessage App.initial
                (App.BATCH_PROCESSED (Some [closedSourceToken])))
             "0xc105ed").
    + apply App.reachable_step, App.reachable_initial.
    + reflexivity.
  - reflexivity.
Defined.

(** C1 as stated fails: a record whose only signal is [gpTransferPausable]
    is installed with [warning], while the stated precedence (honeypot or
    ownership abuse, then proxy / mintable / high tax / slippage) makes it
    [safe]. *)
Lemma transfer_pausable_record_is_warning :
  App.lookup_item "0xa11ce" (App.mergeBatch [] [pausableToken])
    = Some (App.processToken pausableToken)
  ∧ riskLevel (App.processToken pausableToken) = Some warning
  ∧ Spec.statedRiskLevel (App.processToken pausableToken) = safe.
Proof. by vm_compute. Qed.

(** The same for a danger signal outside the stated ones: a record that is
    only not open source is installed with [danger]. *)
Example closed_source_record_is_danger :
  riskLevel (App.processToken closedSourceToken) = Some danger
  ∧ Spec.statedRiskLevel (App.processToken closedSourceToken) = safe.
Proof. by vm_compute. Qed.

(** ** Batch merge (C4) *)

(** C4.  Handling the same [BATCH_PROCESSED] message twice leaves the shell
    in the state one handling produced (same records, same property order,
    same flags); a merge keeps the addresses of the store pairwise distinct;
    and of several records of one batch with the same address, the store
    ends up holding the one that comes last.  The store is one whose
    addresses are pairwise distinct, as every reachable store is. *)
Theorem merge_idempotent_last_write_wins (st : App.State) (data : list Token) :
  NoDup (App.keys (App.items st)) →
  let ev := App.BATCH_PROCESSED (Some data) in
  App.onmessage (App.onmessage st ev) ev = App.onmessage st ev
  ∧ NoDup (App.keys (App.items (App.onmessage st ev)))
  ∧ (∀ pre t post,
       data = pre ++ t :: post →
       (∀ t', t' ∈ post → tokenAddress t' ≠ tokenAddress t) →
       App.lookup_item (tokenAddress t) (App.items (App.onmessage st ev))
       = Some (App.processToken t)).
Proof.
  intros Hnd ev. split_and!.
  - unfold ev. simpl. by rewrite mergeBatch_idempotent.
  - simpl. by apply NoDup_keys_mergeBatch.
  - intros pre t post -> Hpost. simpl.
    rewrite lookup_mergeBatch. by rewrite (lastFor_last _ pre t post).
Qed.

Lemma merge_idempotent_last_write_wins_witness :
  let older := with_numbers (plainToken "0xa11ce") 5 70 300 in
  let data := [older; closedSourceToken; pausableToken] in
  let ev := App.BATCH_PROCESSED (Some data) in
  App.onmessage (App.onmessage App.initial ev) ev = App.onmessage App.initial ev
  ∧ NoDup (App.keys (App.items (App.onmessage App.initial ev)))
  ∧ App.lookup_item "0xa11ce" (App.items (App.onmessage App.initial ev))
    = Some (App.processToken pausableToken).
Proof.
  intros older data ev.
  destruct (merge_idempotent_last_write_wins App.initial data) as (H1 & H2 & H3).
  - constructor.
  - split_and!; [exact H1 | exact H2 |].
    apply (H3 [older; closedSourceToken] pausableToken []); [reflexivity|].
    intros t' Hin. by apply elem_of_nil in Hin.
Defined.

Lemma reachable_store_addresses_distinct st :
  App.reachable st → NoDup (App.keys (App.items st)).
Proof. apply reachable_NoDup. Qed.

(** ** Connection status (C9) *)

(** C9.  A [CONNECTION_STATUS] message that takes the shell from connected
    to disconnected empties the store; one that reports disconnected while
    the shell already was disconnected leaves the store as it is. *)
Theorem connection_loss_clears_store
    (st : App.State) (data : option App.ConnectionStatus) :
  let st' := App.onmessage st (App.CONNECTION_STATUS data) in
  (App.isConnected st = true → App.isConnected st' = false →
   App.items st' = [])
  ∧ (App.isConnected st = false → App.isConnected st' = false →
     App.items st' = App.items st).
Proof.
  destruct data as [d|]; simpl.
  - split; intros -> ->; done.
  - split; [congruence|done].
Qed.

Lemma connection_loss_clears_store_witness :
  let live :=
    App.onmessage
      (App.onmessage App.initial
         (App.CONNECTION_STATUS
            (Some {| App.connected := true; App.error := None |})))
      (App.BATCH_PROCESSED (Some [pausableToken])) in
  let down :=
    App.CONNECTION_STATUS
      (Some {| App.connected := false; App.error := Some "closed" |}) in
  App.items live = [("0xa11ce", App.processToken pausableToken)]
  ∧ App.items (App.onmessage live down) = []
  ∧ App.items (App.onmessage (App.onmessage live down) down) = [].
Proof.
  intros live down. split_and!.
  - reflexivity.
  - apply (proj1 (connection_loss_clears_store live
                    (Some {| App.connected := false;
                             App.error := Some "closed" |})));
      reflexivity.
  - reflexivity.
Defined.

(** A store refilled while the shell is disconnected survives a repeated
    disconnected status. *)
Example disconnected_status_keeps_store :
  let refilled :=
    App.onmessage App.initial (App.BATCH_PROCESSED (Some [pausableToken])) in
  App.isConnected refilled = false
  ∧ App.items
      (App.onmessage refilled
         (App.CONNECTION_STATUS
            (Some {| App.connected := false; App.error := None |})))
    = [("0xa11ce", App.processToken pausableToken)].
Proof. by vm_compute. Qed.

(** ** The array sort *)

Section SortFacts.
Context {A : Type} (cmp : A → A → Q).

(** Where [insert] puts the new element: after a run of elements it
    compares strictly greater than. *)
Lemma insert_split x l :
  ∃ l1 l2, l = l1 ++ l2 ∧ Js.insert cmp x l = l1 ++ x :: l2
           ∧ Forall (λ y, 0 < cmp x y)%Q l1.
Proof.
  induction l as [|y l (l1 & l2 & -> & Hins & Hall)]; simpl.
  - by exists [], [].
  - destruct (Qgtb (cmp x y) 0) eqn:E.
    + exists (y :: l1), l2. rewrite Hins. split_and!; [done..|].
      constructor; [by apply Qgtb_true|done].
    + by exists [], (y :: l1 ++ l2).
Qed.

Lemma insert_Permutation x l : Js.insert cmp x l ≡ₚ x :: l.
Proof.
  destruct (insert_split x l) as (l1 & l2 & -> & -> & _).
  symmetry. apply Permutation_middle.
Qed.

Lemma sort_Permutation l : Js.sort cmp l ≡ₚ l.
Proof.
  induction l as [|x l IH]; simpl; [done|].
  rewrite insert_Permutation. by constructor.
Qed.

Lemma elem_of_sort x l : x ∈ Js.sort cmp l ↔ x ∈ l.
Proof. by rewrite sort_Permutation. Qed.

Lemma length_sort l : length (Js.sort cmp l) = length l.
Proof. by rewrite sort_Permutation. Qed.

(** Stability: a class of elements none of which compares strictly greater
    than another keeps its order. *)
Lemma filter_insert (p : A → bool) x l :
  (∀ y, p x = true → p y = true → (cmp x y <= 0)%Q) →
  List.filter p (Js.insert cmp x l) = List.filter p (x :: l).
Proof.
  intros Htie. destruct (insert_split x l) as (l1 & l2 & -> & -> & Hall).
  simpl. rewrite !List.filter_app. simpl. destruct (p x) eqn:Hx; [|done].
  assert (List.filter p l1 = []) as ->; [|done].
  induction Hall as [|y l1 Hy _ IH]; simpl; [done|].
  destruct (p y) eqn:Hpy; [|done].
  exfalso. specialize (Htie y eq_refl Hpy). lra.
Qed.

Lemma filter_sort (p : A → bool) l :
  (∀ x y, p x = true → p y = true → (cmp x y <= 0)%Q) →
  List.filter p (Js.sort cmp l) = List.filter p l.
Proof.
  intros Htie. induction l as [|x l IH]; simpl; [done|].
  rewrite filter_insert by (intros y; apply Htie). simpl. by rewrite IH.
Qed.

(** The result is ordered when the comparator is additive, as a difference
    of keys is. *)
Hypothesis cmp_additive : ∀ a b c, (cmp a c == cmp a b + cmp b c)%Q.

Lemma cmp_antisym a b : (cmp b a == - cmp a b)%Q.
Proof.
  pose proof (cmp_additive a b a) as H1.
  pose proof (cmp_additive a a a) as H2. lra.
Qed.

Lemma insert_sorted x l :
  StronglySorted (λ a b, cmp a b <= 0)%Q l →
  StronglySorted (λ a b, cmp a b <= 0)%Q (Js.insert cmp x l).
Proof.
  induction 1 as [|y l Hl IH Hy]; simpl.
  - repeat constructor.
  - destruct (Qgtb (cmp x y) 0) eqn:E.
    + apply Qgtb_true in E. constructor; [done|].
      rewrite insert_Permutation. constructor; [|done].
      pose proof (cmp_antisym x y). lra.
    + apply Qgtb_false in E. constructor; [by constructor|].
      constructor; [done|].
      eapply Forall_impl; [exact Hy|]. intros z Hz. simpl in Hz.
      pose proof (cmp_additive x y z). lra.
Qed.

Lemma sort_sorted l : StronglySorted (λ a b, cmp a b <= 0)%Q (Js.sort cmp l).
Proof.
  induction l as [|x l IH]; simpl; [constructor|]. by apply insert_sorted.
Qed.

End SortFacts.

(** ** Relative order in a list *)

Section BeforeFacts.
Context {A : Type}.
Implicit Types (a b : A) (l : list A).

Lemma before_cons a b x l : Spec.before a b l → Spec.before a b (x :: l).
Proof.
  intros (l1 & l2 & l3 & ->). by exists (x :: l1), l2, l3.
Qed.

Lemma before_head a b l : b ∈ l → Spec.before a b (a :: l).
Proof.
  intros (l2 & l3 & ->)%list_elem_of_split. by exists [], l2, l3.
Qed.

Lemma before_cons_inv a b x l :
  Spec.before a b (x :: l) → (x = a ∧ b ∈ l) ∨ Spec.before a b l.
Proof.
  intros ([|y l1] & l2 & l3 & H); simpl in H; injection H as -> ->.
  - left. split; [done|]. rewrite elem_of_app, elem_of_cons. auto.
  - right. by exists l1, l2, l3.
Qed.

Lemma before_elem_of a b l : Spec.before a b l → a ∈ l ∧ b ∈ l.
Proof.
  intros (l1 & l2 & l3 & ->). split.
  - apply elem_of_app. right. left.
  - apply elem_of_app. right. right. apply elem_of_app. right. left.
Qed.

Lemma before_filter_inv (p : A → bool) a b l :
  Spec.before a b (List.filter p l) → Spec.before a b l.
Proof.
  induction l as [|x l IH]; simpl.
  - intros ([|??] & ? & ? & ?); done.
  - destruct (p x); [|by intros ?; apply before_cons, IH].
    intros [[-> Hb]|H]%before_cons_inv.
    + apply before_head. apply list_elem_of_In.
      apply list_elem_of_In, filter_In in Hb. tauto.
    + by apply before_cons, IH.
Qed.

Lemma before_filter (p : A → bool) a b l :
  p a = true → p b = true → Spec.before a b l →
  Spec.before a b (List.filter p l).
Proof.
  intros Ha Hb. induction l as [|x l IH]; simpl.
  - intros ([|??] & ? & ? & ?); done.
  - intros [[-> Hin]|H]%before_cons_inv.
    + rewrite Ha. apply before_head, list_elem_of_In, filter_In.
      split; [by apply list_elem_of_In|done].
    + destruct (p x); [apply before_cons|]; by apply IH.
Qed.

Lemma before_take n a b l : Spec.before a b (take n l) → Spec.before a b l.
Proof.
  intros (l1 & l2 & l3 & H). exists l1, l2, (l3 ++ drop n l).
  rewrite <- (take_drop n l) at 1. rewrite H.
  by rewrite <- !app_assoc, <- !app_comm_cons, <- app_assoc.
Qed.

Lemma before_total a b l :
  a ∈ l → b ∈ l → a ≠ b → Spec.before a b l ∨ Spec.before b a l.
Proof.
  intros Ha Hb Hne. induction l as [|x l IH]; [by apply elem_of_nil in Ha|].
  apply elem_of_cons in Ha as [->|Ha]; apply elem_of_cons in Hb as [->|Hb].
  - done.
  - left. by apply before_head.
  - right. by apply before_head.
  - destruct (IH Ha Hb); [left|right]; by apply before_cons.
Qed.

Lemma before_asym a b l :
  NoDup l → Spec.before a b l → Spec.before b a l → False.
Proof.
  induction 1 as [|x l Hx Hnd IH].
  - intros ([|??] & ? & ? & ?); done.
  - intros [[-> Hb]|H1]%before_cons_inv [[-> Ha]|H2]%before_cons_inv.
    + done.
    + by apply before_elem_of in H2 as [_ ?].
    + by apply before_elem_of in H1 as [_ ?].
    + by apply IH.
Qed.

End BeforeFacts.

(** ** String search *)

Lemma prefix_spec q s : String.prefix q s = true ↔ ∃ post, s = q +:+ post.
Proof.
  revert s. induction q as [|c q IH]; intros s.
  - split; [intros _; by exists s|]. by destruct s.
  - destruct s as [|c' s]; simpl.
    + split; [done|]. by intros [post H].
    + destruct (Ascii.ascii_dec c c') as [->|Hne].
      * split.
        -- intros [post ->]%IH. by exists post.
        -- intros [post H]. apply IH. exists post. simpl in H. by injection H.
      * split; [done|]. intros [post H]. simpl in H. by injection H.
Qed.

Lemma includes_unfold s q :
  Js.includes s q =
  String.prefix q s
  || match s with
     | EmptyString => false
     | String _ rest => Js.includes rest q
     end.
Proof. by destruct s. Qed.

Lemma includes_spec s q :
  Js.includes s q = true ↔ ∃ pre post, s = pre +:+ q +:+ post.
Proof.
  induction s as [|c s IH]; rewrite includes_unfold, orb_true_iff, prefix_spec.
  - split.
    + intros [[post H]|]; [|done]. by exists "", post.
    + intros (pre & post & H). left. exists post.
      destruct pre; [done|discriminate].
  - rewrite IH. split.
    + intros [[post H]|(pre & post & H)].
      * by exists "", post.
      * exists (String c pre), post. simpl. by rewrite H.
    + intros ([|c' pre] & post & H); simpl in H.
      * left. by exists post.
      * right. injection H as -> ->. by exists pre, post.
Qed.

(** ** The filter predicate (C2) *)

Section FilterFacts.
Import Pipeline.

Lemma guard_true (g rest : bool) :
  (if g then false else rest) = true ↔ g = false ∧ rest = true.
Proof. destruct g, rest; simpl; intuition congruence. Qed.

Lemma toggle_guard (flag cond : bool) :
  flag && cond = false ↔ (flag = true → cond = false).
Proof. destruct flag, cond; simpl; intuition congruence. Qed.

Lemma riskIs_false t r : riskIs t r = false ↔ riskLevel t ≠ Some r.
Proof. unfold riskIs. apply bool_decide_eq_false. Qed.

Lemma not_riskIs_false t r : negb (riskIs t r) = false ↔ riskLevel t = Some r.
Proof. unfold riskIs. rewrite negb_false_iff. apply bool_decide_eq_true. Qed.

Lemma not_eqb_false (s1 s2 : string) : negb (String.eqb s1 s2) = false ↔ s1 = s2.
Proof. rewrite negb_false_iff. apply String.eqb_eq. Qed.

Lemma not_eqb_true (s1 s2 : string) : negb (String.eqb s1 s2) = true ↔ s1 ≠ s2.
Proof. rewrite negb_true_iff. apply String.eqb_neq. Qed.

Lemma rejectsUnlocked_false t : rejectsUnlocked t = false ↔ Spec.liquidityLocked t.
Proof.
  unfold rejectsUnlocked, Spec.liquidityLocked.
  destruct (gpLpHolders t) as [|hs|].
  - split; [done|]. by intros (hs & ? & _).
  - rewrite Qltb_false. split; [by exists hs|]. by intros (? & [= <-] & ?).
  - split; [done|]. by intros (hs & ? & _).
Qed.

Lemma matchesQuery_true t q : matchesQuery t q = true ↔ Spec.containsQuery t q.
Proof.
  unfold matchesQuery, Spec.containsQuery.
  rewrite !orb_true_iff, !includes_spec. split.
  - intros [[(b & a & H)|(b & a & H)]|(b & a & H)]; eauto 10.
  - intros (hay & b & a & [->|[->| ->]] & H); eauto 10.
Qed.

Lemma keepToken_satisfiesAll f t :
  keepToken f t = true ↔ Spec.satisfiesAll f t.
Proof.
  unfold keepToken, Spec.satisfiesAll.
  rewrite !guard_true, !toggle_guard.
  rewrite negb_false_iff, !riskIs_false, not_riskIs_false, not_eqb_false,
    rejectsUnlocked_false, !Qgtb_true, !Qltb_false.
  assert ((if negb (String.eqb (searchQuery f) "")
           then matchesQuery t (searchQuery f) else true) = true
          ↔ (searchQuery f ≠ "" → Spec.containsQuery t (searchQuery f))) as ->.
  { rewrite <- matchesQuery_true, <- not_eqb_true.
    destruct (negb (String.eqb (searchQuery f) "")); naive_solver. }
  destruct (hpIsHoneypot t); naive_solver.
Qed.

End FilterFacts.

(** ** Slicing *)

Section SliceFacts.
Context {A : Type}.
Implicit Types (l : list A).

Lemma elem_of_slice0 k l x : x ∈ Js.slice0 k l → x ∈ l.
Proof. unfold Js.slice0. apply subseteq_take. Qed.

Lemma length_slice0 k l :
  (0 ≤ k)%Z → (Z.of_nat (length (Js.slice0 k l)) ≤ k)%Z.
Proof.
  intros Hk. unfold Js.slice0. rewrite length_take.
  destruct (k <? 0)%Z eqn:E; [lia|]. lia.
Qed.

Lemma slice0_all k l : (Z.of_nat (length l) ≤ k)%Z → Js.slice0 k l = l.
Proof.
  intros Hk. unfold Js.slice0.
  destruct (k <? 0)%Z eqn:E; [lia|]. apply take_ge. lia.
Qed.


End SliceFacts.

Lemma StronglySorted_before {A : Type} (R : A → A → Prop) a b l :
  StronglySorted R l → Spec.before a b l → R a b.
Proof.
  induction 1 as [|x l Hl IH Hx].
  - intros ([|??] & ? & ? & ?); done.
  - intros [[-> Hb]|H]%before_cons_inv; [|by apply IH].
    rewrite Forall_forall in Hx. by apply Hx.
Qed.

(** ** The projected sequence (C2, C5) *)

Section PipelineFacts.
Import Pipeline.

Lemma compareTokens_key f a b :
  (compareTokens f a b == (Spec.sortKey f a - Spec.sortKey f b) * Spec.sortSign f)%Q.
Proof.
  unfold compareTokens, Spec.sortKey, Spec.sortSign.
  destruct (String.eqb (field (sortBy f)) "age"); [ring|].
  destruct (String.eqb (field (sortBy f)) "holders"); [ring|].
  destruct (String.eqb (field (sortBy f)) "liquidity"); [ring|].
  destruct (String.eqb (field (sortBy f)) "safetyScore"); ring.
Qed.

Lemma compareTokens_additive f a b c :
  (compareTokens f a c == compareTokens f a b + compareTokens f b c)%Q.
Proof. rewrite !compareTokens_key. ring. Qed.

Lemma compareTokens_tie f a b :
  (Spec.sortKey f a == Spec.sortKey f b)%Q → (compareTokens f a b == 0)%Q.
Proof. intros H. rewrite compareTokens_key, H. ring. Qed.

Lemma elem_of_filteredTokens tokens f t :
  t ∈ filteredTokens tokens f → t ∈ tokens ∧ keepToken f t = true.
Proof.
  unfold filteredTokens. intros H%elem_of_slice0.
  apply elem_of_sort in H. apply list_elem_of_In, filter_In in H as [H1 H2].
  split; [by apply list_elem_of_In|done].
Qed.

Lemma filteredTokens_before_inv tokens f a b :
  (Spec.sortKey f a == Spec.sortKey f b)%Q →
  Spec.before a b (filteredTokens tokens f) → Spec.before a b tokens.
Proof.
  intros Hkey H. unfold filteredTokens, Js.slice0 in H.
  apply before_take in H.
  set (p := λ r, Qeq_bool (Spec.sortKey f r) (Spec.sortKey f a)).
  apply (before_filter p) in H.
  - rewrite filter_sort in H.
    + by do 2 apply before_filter_inv in H.
    + intros x y Hx%Qeq_bool_iff Hy%Qeq_bool_iff.
      rewrite compareTokens_tie; [lra|]. by rewrite Hx, Hy.
  - by apply Qeq_bool_iff.
  - apply Qeq_bool_iff. by symmetry.
Qed.

End PipelineFacts.




(** The scenario of the specification: hiding honeypots leaves [B] alone. *)
Example scenario_hide_honeypots :
  Pipeline.filteredTokens [tokenA; tokenB]
    (filtersWith true "" "liquidity" 50) = [tokenB].
Proof. by vm_compute. Qed.

(** A negative [maxRecords] drops records from the end instead of
    bounding the length. *)
Example negative_cap_drops_from_the_end :
  Pipeline.filteredTokens [tokenA; tokenB; tokenC]
    (filtersWith false "" "liquidity" (-1)) = [tokenB; tokenC].
Proof. by vm_compute. Qed.

(** ** Stability of the sort (C5) *)

(** The key and the direction behind each option of the sort selector. *)
Lemma sortKey_of_selector f t :
  (sortBy f = "age" → Spec.sortKey f t = tokenAgeHours t ∧ Spec.sortSign f = 1%Q)
  ∧ (sortBy f = "age_asc" →
     Spec.sortKey f t = tokenAgeHours t ∧ Spec.sortSign f = (- 1)%Q)
  ∧ (sortBy f = "holders" →
     Spec.sortKey f t = gpHolderCount t ∧ Spec.sortSign f = (-1)%Q)
  ∧ (sortBy f = "holders_asc" →
     Spec.sortKey f t = gpHolderCount t ∧ Spec.sortSign f = 1%Q)
  ∧ (sortBy f = "liquidity" →
     Spec.sortKey f t = hpLiquidityAmount t ∧ Spec.sortSign f = (-1)%Q)
  ∧ (sortBy f = "liquidity_asc" →
     Spec.sortKey f t = hpLiquidityAmount t ∧ Spec.sortSign f = 1%Q)
  ∧ (sortBy f = "safetyScore" →
     Spec.sortKey f t = Pipeline.getRiskScore t ∧ Spec.sortSign f = (-1)%Q).
Proof.
  unfold Spec.sortKey, Spec.sortSign.
  split_and!; intros ->; by vm_compute.
Qed.

Lemma getRiskScore_values t :
  Pipeline.getRiskScore t =
  match riskLevel t with
  | Some safe => 2%Q
  | Some warning => 1%Q
  | Some danger | None => 0%Q
  end.
Proof. unfold Pipeline.getRiskScore. by destruct (riskLevel t) as [[]|]. Qed.

Lemma filteredTokens_sorted tokens f x y :
  Spec.before x y (Pipeline.filteredTokens tokens f) →
  (Spec.sortKey f x * Spec.sortSign f <= Spec.sortKey f y * Spec.sortSign f)%Q.
Proof.
  intros H. unfold Pipeline.filteredTokens, Js.slice0 in H.
  apply before_take in H.
  eapply StronglySorted_before in H;
    [|apply sort_sorted, compareTokens_additive].
  simpl in H. rewrite compareTokens_key in H. lra.
Qed.

(** C5.  The projected sequence is ordered by the selected key in the
    selected direction ([safetyScore] being 2 for safe, 1 for warning, 0 for
    danger), and two records with equal keys stand in the output in the
    order they have in the snapshot. *)
Theorem filteredTokens_stable
    (tokens : list Token) (f : FilterState) (a b : Token) :
  (Spec.sortKey f a == Spec.sortKey f b)%Q →
  let out := Pipeline.filteredTokens tokens f in
  (Spec.before a b out → Spec.before a b tokens)
  ∧ (NoDup tokens → a ∈ out → b ∈ out →
     Spec.before a b tokens → Spec.before a b out)
  ∧ (∀ x y, Spec.before x y out →
       (Spec.sortKey f x * Spec.sortSign f
        <= Spec.sortKey f y * Spec.sortSign f)%Q)
  ∧ (∀ t, Pipeline.getRiskScore t =
          match riskLevel t with
          | Some safe => 2%Q
          | Some warning => 1%Q
          | Some danger | None => 0%Q
          end).
Proof.
  intros Hkey out. split_and!.
  - by apply filteredTokens_before_inv.
  - intros Hnd Ha Hb Hab.
    assert (a ≠ b) as Hne.
    { intros ->. by apply (before_asym b b tokens). }
    destruct (before_total a b out Ha Hb Hne) as [H|H]; [done|].
    exfalso. apply (before_asym a b tokens); [done..|].
    apply (filteredTokens_before_inv tokens f); [by symmetry|done].
  - apply filteredTokens_sorted.
  - apply getRiskScore_values.
Qed.

Lemma filteredTokens_stable_witness :
  let f := filtersWith false "" "holders" 50 in
  (Spec.sortKey f tokenB == Spec.sortKey f tokenC)%Q
  ∧ Pipeline.filteredTokens [tokenB; tokenA; tokenC] f = [tokenA; tokenB; tokenC]
  ∧ Spec.before tokenB tokenC (Pipeline.filteredTokens [tokenB; tokenA; tokenC] f).
Proof.
  intros f.
  assert (Spec.sortKey f tokenB == Spec.sortKey f tokenC)%Q as Hkey
    by reflexivity.
  split_and!; [exact Hkey | by vm_compute |].
  apply (filteredTokens_stable [tokenB; tokenA; tokenC] f tokenB tokenC Hkey).
  - repeat constructor; rewrite ?elem_of_cons, ?elem_of_nil;
      intros H; repeat destruct H as [H|H]; discriminate || done.
  - vm_compute. right. left.
  - vm_compute. right. right. left.
  - by exists [], [tokenA], [].
Defined.

(** ** Sums behind the regression *)

Section RegressionFacts.
Import Stats.
Local Open Scope Q_scope.

Lemma count_cons {A : Type} (x : A) (l : list A) : count (x :: l) == count l + 1.
Proof.
  unfold count. simpl length. rewrite Nat2Z.inj_succ, <- Z.add_1_r.
  by rewrite inject_Z_plus.
Qed.

Lemma count_nonneg {A : Type} (l : list A) : 0 <= count l.
Proof.
  unfold count. change 0 with (inject_Z 0). rewrite <- Zle_Qle. lia.
Qed.

























(** Index points: abscissae grow by one. *)
Lemma pointsFrom_fst_ge k ys p :
  p ∈ pointsFrom k ys → inject_Z (Z.of_nat k) <= fst p.
Proof.
  revert k. induction ys as [|y ys IH]; intros k; simpl.
  - by rewrite elem_of_nil.
  - rewrite elem_of_cons. intros [->|H]; simpl; [lra|].
    apply IH in H. eapply Qle_trans; [|exact H].
    rewrite <- Zle_Qle. lia.
Qed.




(** *** The slope is a least-squares slope *)




(** *** Bounds on the slope of a series with bounded steps *)

Lemma inject_succ k : inject_Z (Z.of_nat (S k)) == inject_Z (Z.of_nat k) + 1.
Proof. by rewrite Nat2Z.inj_succ, <- Z.add_1_r, inject_Z_plus. Qed.















(** *** Classification by the threshold *)






End RegressionFacts.

(** ** Histories in time order *)

Lemma sort_of_sorted {A : Type} (cmp : A → A → Q) l :
  StronglySorted (λ a b, cmp a b <= 0)%Q l → Js.sort cmp l = l.
Proof.
  induction 1 as [|x l Hl IH Hx]; simpl; [done|].
  rewrite IH. destruct l as [|y l]; simpl; [done|].
  assert (Qgtb (cmp x y) 0 = false) as ->; [|done].
  apply Qgtb_false. rewrite Forall_forall in Hx. apply Hx. left.
Qed.




(** ** The trend calculator (C3) *)



(** ** Monotone series (C6) *)




(** ** The two trend implementations (C10) *)

Section ChartFacts.
Import Chart.

Lemma fold_samplePoint_spaced sortedData acc lastTimestamp :
  (0 ≤ lastTimestamp)%Z → spaced lastTimestamp sortedData →
  fst (fold_left samplePoint sortedData (acc, lastTimestamp)) = acc ++ sortedData.
Proof.
  revert acc lastTimestamp.
  induction sortedData as [|p l IH]; intros acc lastTimestamp Hpos Hsp; simpl.
  - by rewrite app_nil_r.
  - destruct Hsp as [Hgap Hsp]. unfold MIN_DATA_POINT_DISTANCE in *.
    assert ((timestamp p =? 0)%Z = false) as -> by (apply Z.eqb_neq; lia).
    assert ((60000 <=? timestamp p - lastTimestamp)%Z = true) as ->
      by (apply Z.leb_le; lia).
    rewrite IH; [|lia|done]. by rewrite <- app_assoc.
Qed.

Lemma sampledData_spaced sortedData :
  spaced 0 sortedData → sampledData sortedData = sortedData.
Proof.
  intros H. unfold sampledData.
  by rewrite (fold_samplePoint_spaced sortedData [] 0%Z).
Qed.




End ChartFacts.




(** The threshold itself separates the two: a slope of exactly 0.05 is up
    for the list and stagnant for the chart. *)
Example boundary_slope_trends_differ :
  let history := [point 60000 0 0; point 120000 0.05 0] in
  (Regression.slope (series history liquidity) == 0.05)%Q
  ∧ Trend.calculateTrend history liquidity = up
  ∧ Chart.trendDirection history liquidity = stagnant.
Proof. by vm_compute. Qed.

(** ** Measurements and scrolling (C7, C8) *)

Section RowsFacts.
Import Rows.





End RowsFacts.

(** C8.  After any call of [updateFilters], with a new state or with an
    updater, the measured-height map is the empty map and the scroll offset
    reads 0; the new filter state is the one installed and saved. *)
Theorem updateFilters_clears_measurements
    (st : Rows.State) (newFilters : FilterState + (FilterState → FilterState)) :
  let st' := Rows.updateFilters st newFilters in
  Rows.measuredHeights st' = ∅
  ∧ (∀ index, Rows.measuredHeights st' !! index = None)
  ∧ Rows.currentScroll st' = 0%Q
  ∧ Rows.scrollTop <$> Rows.scrollContainerRef st'
    = (λ _, 0%Q) <$> Rows.scrollContainerRef st
  ∧ Rows.filters st'
    = match newFilters with
      | inl value => value
      | inr update => update (Rows.filters st)
      end
  ∧ Rows.savedFilters st' = Some (Rows.filters st').
Proof.
  intros st'. unfold st', Rows.updateFilters. simpl. split_and!; try done.
  - unfold Rows.currentScroll. simpl. by destruct (Rows.scrollContainerRef st).
  - by destruct (Rows.scrollContainerRef st).
Qed.

(** Measurements recorded by the observer are gone after a filter change. *)
Example filter_change_forgets_measurements :
  let measured :=
    Rows.onResizeEntries Rows.scrolledDown [(8%Z, 42%Q); (9%Z, 640%Q)] in
  Rows.measuredHeights measured !! 9%Z = Some 640%Q
  ∧ Rows.measuredHeights
      (Rows.updateFilters measured
         (inr (λ f, filtersWith true (searchQuery f) (sortBy f) (maxRecords f))))
    !! 9%Z = None
  ∧ Rows.currentScroll
      (Rows.updateFilters measured (inl defaultFilters)) = 0%Q.
Proof. by vm_compute. Qed.




(** Reapplying the offset read before the toggle would not keep the rows
    either: the expanded row then fills the viewport. *)
Example reapplied_offset_shows_other_rows :
  Rows.visibleRows Rows.twelveTokens
    (Rows.runFrameTask Rows.twelveTokens
       (Rows.handleTokenClick Rows.twelveTokens Rows.scrolledDown "C")
       (Rows.RestoreScroll 336)) = [2]%nat.
Proof. by vm_compute. Qed.

(** * Further properties *)

Local Set Warnings "-clear-no-such-hyp".

(** ** The shell: loading flag, batches in sequence *)

(** X1.  In every state the shell can reach, the loading flag is up exactly
    while no batch has arrived since the start or the last loss of
    connection; so whenever the store holds a record the list is shown and
    not the spinner. *)
Theorem loading_until_first_batch (st : App.State) :
  App.reachable st →
  App.isLoading st = negb (App.hasReceivedInitialTokens st)
  ∧ (App.items st ≠ [] →
     negb (App.isLoading st) && App.hasReceivedInitialTokens st = true).
Proof.
  induction 1 as [|st ev _ [IH1 IH2]].
  - split; [done|]. by intros [].
  - destruct ev as [[d|]|[d|]|]; simpl; try done.
    destruct (App.isConnected st && negb (App.connected d)); [|done].
    split; [done|]. by intros [].
Qed.

Lemma loading_until_first_batch_witness :
  let st :=
    App.onmessage
      (App.onmessage App.initial
         (App.CONNECTION_STATUS
            (Some {| App.connected := true; App.error := None |})))
      (App.BATCH_PROCESSED (Some [tokenA])) in
  App.isLoading st = false ∧ App.hasReceivedInitialTokens st = true.
Proof.
  intros st.
  destruct (loading_until_first_batch st) as [H1 H2].
  - do 2 apply App.reachable_step. apply App.reachable_initial.
  - apply andb_true_iff in H2 as [H2 H3]; [|done].
    split; [by apply negb_true_iff|done].
Defined.



(** ** Store and pipeline together *)

Lemma reachable_values_fresh st t :
  App.reachable st → t ∈ App.values (App.items st) → Spec.fresh t.
Proof.
  intros Hst Ht. unfold App.values in Ht.
  apply list_elem_of_fmap in Ht as ([a r] & -> & Hin). simpl.
  apply (reachable_all_fresh st Hst a).
  apply elem_of_items_lookup; [by apply reachable_NoDup|done].
Qed.

Lemma fresh_honeypot_danger t :
  Spec.fresh t → hpIsHoneypot t = true → riskLevel t = Some danger.
Proof.
  unfold Spec.fresh, Spec.classification, Spec.dangerSignal.
  intros -> ->. done.
Qed.

(** X3.  On the records of any store the shell can reach, hiding danger
    hides every honeypot, show-only-safe shows records classified safe
    only, none of them a honeypot, and show-only-honeypots together with
    hide-danger shows nothing. *)
Theorem risk_filters_on_store (st : App.State) (f : FilterState) :
  App.reachable st →
  let out := Pipeline.filteredTokens (App.values (App.items st)) f in
  (hideDanger f = true → ∀ t, t ∈ out → hpIsHoneypot t = false)
  ∧ (showOnlySafe f = true →
     ∀ t, t ∈ out → hpIsHoneypot t = false ∧ Spec.classification t = safe)
  ∧ (showOnlyHoneypots f = true → hideDanger f = true → out = []).
Proof.
  intros Hst out.
  assert (∀ t, t ∈ out → Spec.fresh t ∧ Spec.satisfiesAll f t) as Hout.
  { intros t [Hin Hk]%elem_of_filteredTokens. split.
    - by apply (reachable_values_fresh st).
    - by apply keepToken_satisfiesAll. }
  split_and!.
  - intros Hf t [Hfr Hsat]%Hout.
    destruct Hsat as (_ & _ & Hd & _). specialize (Hd Hf).
    destruct (hpIsHoneypot t) eqn:E; [|done].
    exfalso. by apply Hd, fresh_honeypot_danger.
  - intros Hf t [Hfr Hsat]%Hout.
    destruct Hsat as (_ & _ & _ & _ & Hs & _). specialize (Hs Hf).
    unfold Spec.fresh in Hfr. rewrite Hs in Hfr. injection Hfr as Hc.
    split; [|done].
    destruct (hpIsHoneypot t) eqn:E; [|done].
    unfold Spec.classification, Spec.dangerSignal in Hc. by rewrite E in Hc.
  - intros Hh Hd. destruct out as [|t out'] eqn:E; [done|]. exfalso.
    destruct (Hout t) as [Hfr Hsat]; [left|].
    destruct Hsat as (_ & Hhp & Hdg & _).
    by apply (Hdg Hd), fresh_honeypot_danger, Hhp.
Qed.

Lemma risk_filters_on_store_witness :
  let st :=
    App.onmessage App.initial
      (App.BATCH_PROCESSED (Some [tokenA; tokenB; pausableToken])) in
  let hideDangerOnly :=
    {| minHolders := 0; minLiquidity := 0; hideHoneypots := false;
       showOnlyHoneypots := false; hideDanger := true; hideWarning := false;
       showOnlySafe := false; hideNotRenounced := false;
       hideUnlockedLiquidity := false; searchQuery := EmptyString;
       sortBy := "age"; sortDirection := "desc"; maxRecords := 50;
       hideStagnantHolders := false; hideStagnantLiquidity := false;
       stagnantRecordCount := 10 |} in
  map tokenAddress
    (Pipeline.filteredTokens (App.values (App.items st)) hideDangerOnly)
  = ["0xa11ce"; "0xb"]
  ∧ hpIsHoneypot (App.processToken tokenB) = false.
Proof.
  intros st hideDangerOnly. split; [by vm_compute|].
  apply (proj1 (risk_filters_on_store st hideDangerOnly
                  (App.reachable_step _ _ App.reachable_initial)));
    [reflexivity|].
  vm_compute. right. left.
Defined.

(** ** Projecting a projection *)

Lemma filter_all_true {A : Type} (p : A → bool) l :
  (∀ x, x ∈ l → p x = true) → List.filter p l = l.
Proof.
  induction l as [|x l IH]; intros H; simpl; [done|].
  rewrite (H x) by left. f_equal. apply IH. intros y Hy. apply H. by right.
Qed.

Lemma StronglySorted_take {A : Type} (R : A → A → Prop) n l :
  StronglySorted R l → StronglySorted R (take n l).
Proof.
  intros H. revert n. induction H as [|x l Hl IH Hx]; intros [|n]; simpl;
    try constructor; [apply IH|].
  rewrite Forall_forall in Hx |- *. intros y Hy. apply Hx.
  by apply (subseteq_take n l).
Qed.

(** X4.  For a non-negative [maxRecords] the pipeline is idempotent: run on
    its own output with the same filters it returns that output. *)
Theorem filteredTokens_idempotent (tokens : list Token) (f : FilterState) :
  (0 ≤ maxRecords f)%Z →
  Pipeline.filteredTokens (Pipeline.filteredTokens tokens f) f
  = Pipeline.filteredTokens tokens f.
Proof.
  intros Hcap. set (out := Pipeline.filteredTokens tokens f).
  unfold Pipeline.filteredTokens at 1.
  rewrite filter_all_true
    by (intros t Ht; by apply elem_of_filteredTokens in Ht as [_ ?]).
  rewrite sort_of_sorted.
  - apply slice0_all. by apply length_slice0.
  - unfold out, Pipeline.filteredTokens, Js.slice0.
    apply StronglySorted_take, sort_sorted, compareTokens_additive.
Qed.

Lemma filteredTokens_idempotent_witness :
  let f := filtersWith true "0x" "holders" 2 in
  Pipeline.filteredTokens [tokenA; tokenB; tokenC; pausableToken] f
  = [tokenB; tokenC]
  ∧ Pipeline.filteredTokens
      (Pipeline.filteredTokens [tokenA; tokenB; tokenC; pausableToken] f) f
    = Pipeline.filteredTokens [tokenA; tokenB; tokenC; pausableToken] f.
Proof.
  intros f. split; [by vm_compute|].
  apply filteredTokens_idempotent. by vm_compute.
Defined.

(** With a negative [maxRecords] each pass drops more records. *)
Example negative_cap_is_not_idempotent :
  let f := filtersWith false "" "liquidity" (-1) in
  Pipeline.filteredTokens [tokenA; tokenB; tokenC] f = [tokenB; tokenC]
  ∧ Pipeline.filteredTokens (Pipeline.filteredTokens [tokenA; tokenB; tokenC] f) f
    = [tokenB].
Proof. by vm_compute. Qed.

(** ** Search *)



(** ** The locked-liquidity badge and the filter *)



(** ** Expanding rows *)

Section ExpansionFacts.
Import Rows.

Lemma findIndex_from_spec {A : Type} (p : A → bool) (l : list A) k i :
  Js.findIndex_from p k l = i → (0 ≤ k)%Z → (0 ≤ i)%Z →
  ∃ x, l !! Z.to_nat (i - k) = Some x ∧ p x = true ∧ (k ≤ i)%Z.
Proof.
  revert k. induction l as [|x l IH]; intros k; simpl.
  - intros <-. lia.
  - destruct (p x) eqn:E.
    + intros -> _ _. exists x. rewrite Z.sub_diag. done.
    + intros H Hk Hi. destruct (IH (k + 1)%Z H) as (y & Hy & Hp & Hle); [lia..|].
      exists y. split_and!; [|done|lia].
      replace (Z.to_nat (i - k)) with (S (Z.to_nat (i - (k + 1)))) by lia. done.
Qed.

Lemma findIndex_spec {A : Type} (p : A → bool) (l : list A) i :
  Js.findIndex p l = i → (0 ≤ i)%Z →
  ∃ x, Js.at_index l i = Some x ∧ p x = true.
Proof.
  intros H Hi. destruct (findIndex_from_spec p l 0 i H) as (x & Hx & Hp & _);
    [lia..|].
  exists x. split; [|done]. unfold Js.at_index.
  assert ((i <? 0)%Z = false) as -> by (apply Z.ltb_ge; lia).
  by rewrite Z.sub_0_r in Hx.
Qed.

End ExpansionFacts.

Lemma expandedTokens_handleTokenClick tokens st address :
  Rows.expandedTokens (Rows.handleTokenClick tokens st address)
  = Rows.expandedTokens (Rows.toggleTokenExpansion st address).
Proof.
  unfold Rows.handleTokenClick.
  by destruct (0 <=? Js.findIndex _ _)%Z.
Qed.

Lemma toggle_twice (e : gset string) (address : string) :
  let once :=
    if decide (address ∈ e) then e ∖ {[address]} else e ∪ {[address]} in
  (if decide (address ∈ once) then once ∖ {[address]} else once ∪ {[address]})
  = e.
Proof.
  intros once. unfold once.
  destruct (decide (address ∈ e)) as [Hin|Hnin].
  - rewrite decide_False by set_solver.
    apply set_eq. intros x. destruct (decide (x = address)); set_solver.
  - rewrite decide_True by set_solver. set_solver.
Qed.

(** X7.  Toggling an address twice restores the expansion set, a toggle
    flips the membership of that address and of no other, and two clicks on
    the same row leave the set of expanded rows as it was. *)
Theorem toggleTokenExpansion_involution
    (tokens : list Token) (st : Rows.State) (address : string) :
  Rows.expandedTokens
    (Rows.toggleTokenExpansion (Rows.toggleTokenExpansion st address) address)
  = Rows.expandedTokens st
  ∧ (address ∈ Rows.expandedTokens (Rows.toggleTokenExpansion st address)
     ↔ address ∉ Rows.expandedTokens st)
  ∧ (∀ other, other ≠ address →
       (other ∈ Rows.expandedTokens (Rows.toggleTokenExpansion st address)
        ↔ other ∈ Rows.expandedTokens st))
  ∧ Rows.expandedTokens
      (Rows.handleTokenClick tokens
         (Rows.handleTokenClick tokens st address) address)
    = Rows.expandedTokens st.
Proof.
  split_and!.
  - apply (toggle_twice (Rows.expandedTokens st) address).
  - unfold Rows.toggleTokenExpansion. simpl.
    destruct (decide (address ∈ Rows.expandedTokens st)); set_solver.
  - intros other Hne. unfold Rows.toggleTokenExpansion. simpl.
    destruct (decide (address ∈ Rows.expandedTokens st)); set_solver.
  - rewrite expandedTokens_handleTokenClick.
    unfold Rows.toggleTokenExpansion at 1. simpl.
    rewrite expandedTokens_handleTokenClick.
    apply (toggle_twice (Rows.expandedTokens st) address).
Qed.

(** X8.  After a click on a row of the filtered list, the size estimate of
    that row no longer comes from a measurement: it is the expanded
    estimate if the click expanded the row and the collapsed height if it
    collapsed it. *)
Theorem handleTokenClick_resets_estimate
    (tokens : list Token) (st : Rows.State) (address : string) :
  let index :=
    Js.findIndex (λ t, String.eqb (tokenAddress t) address) (Rows.rows tokens st) in
  (0 ≤ index)%Z →
  Rows.estimateSize tokens (Rows.handleTokenClick tokens st address) index
  = if decide (address ∈ Rows.expandedTokens st)
    then Rows.COLLAPSED_HEIGHT else Rows.EXPANDED_HEIGHT.
Proof.
  intros index Hi.
  destruct (findIndex_spec _ (Rows.rows tokens st) index eq_refl Hi)
    as (t & Ht & Hp).
  apply String.eqb_eq in Hp.
  unfold Rows.handleTokenClick.
  change (Rows.rows tokens (Rows.toggleTokenExpansion st address))
    with (Rows.rows tokens st).
  fold index. apply Z.leb_le in Hi as Hi'. rewrite Hi'.
  unfold Rows.estimateSize.
  change (Rows.rows tokens _) with (Rows.rows tokens st). rewrite Ht. simpl.
  rewrite lookup_delete_eq, Hp.
  destruct (decide (address ∈ Rows.expandedTokens st)) as [Hin|Hnin].
  - rewrite decide_False by set_solver. done.
  - rewrite decide_True by set_solver. done.
Qed.

Lemma handleTokenClick_resets_estimate_witness :
  let measured :=
    Rows.onResizeEntries Rows.scrolledDown [(2%Z, 640%Q)] in
  Rows.estimateSize Rows.twelveTokens measured 2 = 640%Q
  ∧ Rows.estimateSize Rows.twelveTokens
      (Rows.handleTokenClick Rows.twelveTokens measured "C") 2
    = Rows.EXPANDED_HEIGHT.
Proof.
  intros measured. split; [by vm_compute|].
  apply (handleTokenClick_resets_estimate Rows.twelveTokens measured "C").
  by vm_compute.
Defined.

(** ** Expand All / Collapse All *)

(** X9.  The Expand All / Collapse All button never leaves a mixed state:
    if some row of the filtered list is expanded it collapses everything,
    otherwise it expands exactly the rows of the filtered list; either way
    every address expanded afterwards belongs to a row of the list. *)
Theorem toggleAll_all_or_nothing (tokens : list Token) (st : Rows.State) :
  let rows := Rows.rows tokens st in
  let after := Rows.expandedTokens (ListView.toggleAll tokens st) in
  ((∃ t, t ∈ rows ∧ tokenAddress t ∈ Rows.expandedTokens st) → after = ∅)
  ∧ ((∀ t, t ∈ rows → tokenAddress t ∉ Rows.expandedTokens st) →
     ∀ a, a ∈ after ↔ ∃ t, t ∈ rows ∧ tokenAddress t = a)
  ∧ (∀ a, a ∈ after → ∃ t, t ∈ rows ∧ tokenAddress t = a).
Proof.
  intros rows after. unfold after, ListView.toggleAll. simpl. fold rows.
  set (hasExpanded := existsb _ rows).
  assert (hasExpanded = true
          ↔ ∃ t, t ∈ rows ∧ tokenAddress t ∈ Rows.expandedTokens st) as Hex.
  { unfold hasExpanded. rewrite existsb_exists. split.
    - intros (t & Hin & Hb). exists t. split; [by apply list_elem_of_In|].
      by apply bool_decide_eq_true in Hb.
    - intros (t & Hin & Hb). exists t. split; [by apply list_elem_of_In|].
      by apply bool_decide_eq_true. }
  assert (∀ a, a ∈ (list_to_set (map tokenAddress rows) : gset string)
               ↔ ∃ t, t ∈ rows ∧ tokenAddress t = a) as Hall.
  { intros a. rewrite elem_of_list_to_set, list_elem_of_fmap. naive_solver. }
  split_and!.
  - intros H. by apply Hex in H as ->.
  - intros H a. destruct hasExpanded; [|apply Hall].
    destruct (proj1 Hex eq_refl) as (t & Hin & Hb). by apply H in Hin.
  - intros a. destruct hasExpanded; [set_solver|apply Hall].
Qed.

(** ** Heights and positions *)

Section HeightFacts.
Local Open Scope Q_scope.

Lemma fold_rowHeight st l acc :
  fold_left (λ height token, height + ListView.rowHeight st token) l acc
  == acc + 42 * Stats.count l + 758 * expandedAmong st l.
Proof.
  revert acc. induction l as [|t l IH]; intros acc.
  - unfold expandedAmong, Stats.count. simpl. ring.
  - cbn [fold_left]. rewrite IH. unfold expandedAmong.
    cbn [List.filter]. unfold ListView.rowHeight.
    destruct (decide (tokenAddress t ∈ Rows.expandedTokens st)) as [Hin|Hnin].
    + rewrite bool_decide_eq_true_2 by done. rewrite !count_cons.
      unfold Rows.EXPANDED_HEIGHT. ring.
    + rewrite bool_decide_eq_false_2 by done. rewrite !count_cons.
      unfold Rows.COLLAPSED_HEIGHT. ring.
Qed.

Lemma expandedAmong_bounds st l :
  0 <= expandedAmong st l ∧ expandedAmong st l <= Stats.count l.
Proof.
  unfold expandedAmong. split; [apply count_nonneg|].
  unfold Stats.count. rewrite <- Zle_Qle. apply inj_le.
  induction l as [|t l IH]; simpl; [lia|].
  destruct (bool_decide _); simpl; lia.
Qed.

Lemma fold_placeToken st l positions currentPosition :
  NoDup (map tokenAddress l) →
  (∀ i t, l !! i = Some t →
     fst (fold_left (ListView.placeToken st) l (positions, currentPosition))
       !! tokenAddress t
     = Some (fold_left (λ height token, height + ListView.rowHeight st token)
               (take i l) currentPosition))
  ∧ (∀ a, a ∉ map tokenAddress l →
       fst (fold_left (ListView.placeToken st) l (positions, currentPosition)) !! a
       = positions !! a).
Proof.
  revert positions currentPosition.
  induction l as [|t l IH]; intros positions currentPosition Hnd.
  - split; [by intros i t|done].
  - cbn [map] in Hnd. apply NoDup_cons in Hnd as [Ht Hnd].
    cbn [fold_left ListView.placeToken].
    destruct (IH (<[tokenAddress t := currentPosition]> positions)
                (currentPosition + ListView.rowHeight st t) Hnd) as [IH1 IH2].
    split.
    + intros [|i] t2 Hi; simpl in Hi.
      * injection Hi as <-. rewrite IH2 by done. by rewrite lookup_insert_eq.
      * by rewrite (IH1 i t2 Hi).
    + intros a Ha. cbn [map] in Ha. apply not_elem_of_cons in Ha as [Hne Ha].
      rewrite IH2 by done. by rewrite lookup_insert_ne.
Qed.

End HeightFacts.

(** X10.  The total height of the list is 42 for every row plus 758 more
    for every expanded one; and when the rows have pairwise distinct
    addresses, the position recorded for the token of row [i] is the same
    sum over the rows before it, so a row never reaches past the total
    height. *)
Theorem positions_and_totalHeight (tokens : list Token) (st : Rows.State) :
  let rows := Rows.rows tokens st in
  (ListView.totalHeight tokens st
   == 42 * Stats.count rows + 758 * expandedAmong st rows)%Q
  ∧ (NoDup (map tokenAddress rows) →
     ∀ i t, rows !! i = Some t →
       ∃ position,
         ListView.calculatePositions tokens st !! tokenAddress t = Some position
         ∧ (position
            == 42 * inject_Z (Z.of_nat i) + 758 * expandedAmong st (take i rows))%Q
         ∧ (position + ListView.rowHeight st t
            <= ListView.totalHeight tokens st)%Q).
Proof.
  intros rows. split.
  - unfold ListView.totalHeight. fold rows. rewrite fold_rowHeight. ring.
  - intros Hnd i t Hi.
    destruct (fold_placeToken st rows ∅ 0%Q Hnd) as [Hpos _].
    eexists. split; [apply (Hpos i t Hi)|].
    assert (Stats.count (take i rows) = inject_Z (Z.of_nat i)) as Hcount.
    { unfold Stats.count. rewrite length_take.
      apply lookup_lt_Some in Hi. do 2 f_equal. lia. }
    split.
    + rewrite fold_rowHeight, Hcount. ring.
    + unfold ListView.totalHeight. fold rows.
      rewrite <- (take_drop_middle rows i t Hi) at 2.
      rewrite fold_left_app. cbn [fold_left].
      rewrite (fold_rowHeight st (drop (S i) rows)).
      pose proof (count_nonneg (drop (S i) rows)).
      pose proof (expandedAmong_bounds st (drop (S i) rows)). lra.
Qed.

Lemma positions_and_totalHeight_witness :
  let st := Rows.handleTokenClick Rows.twelveTokens Rows.scrolledDown "C" in
  ListView.calculatePositions Rows.twelveTokens st !! "D" = Some (884 # 1)
  ∧ (ListView.totalHeight Rows.twelveTokens st == 1262)%Q.
Proof.
  intros st.
  destruct (positions_and_totalHeight Rows.twelveTokens st) as [Htotal Hpos].
  split; [by vm_compute|].
  rewrite Htotal. by vm_compute.
Defined.

(** ** The resize observer *)

Section ObserverFacts.
Import Rows.

Lemma observeEntry_lookup (m : gmap Z Q) b index height i :
  let m' := fst (observeEntry (m, b) (index, height)) in
  (i ≠ index ∨ (index < 0)%Z → m' !! i = m !! i)
  ∧ ((0 ≤ index)%Z → ∃ h, m' !! index = Some h ∧ (h == height)%Q).
Proof.
  unfold observeEntry. destruct (0 <=? index)%Z eqn:E.
  - apply Z.leb_le in E.
    destruct (m !! index) as [prev|] eqn:Hm.
    + destruct (Qeq_bool prev height) eqn:Hq; simpl.
      * split; [done|]. intros _. exists prev. split; [done|].
        by apply Qeq_bool_iff.
      * split.
        -- intros [Hne|Hneg]; [by rewrite lookup_insert_ne|lia].
        -- intros _. exists height. by rewrite lookup_insert_eq.
    + simpl. split.
      * intros [Hne|Hneg]; [by rewrite lookup_insert_ne|lia].
      * intros _. exists height. by rewrite lookup_insert_eq.
  - simpl. split; [done|]. apply Z.leb_gt in E. lia.
Qed.

Lemma fold_observeEntry_other entries (m : gmap Z Q) b i :
  (∀ index height, (index, height) ∈ entries → index ≠ i ∨ (index < 0)%Z) →
  fst (fold_left observeEntry entries (m, b)) !! i = m !! i.
Proof.
  revert m b. induction entries as [|[index height] entries IH]; intros m b H;
    [done|].
  cbn [fold_left].
  destruct (observeEntry (m, b) (index, height)) as [m' b'] eqn:E.
  rewrite IH by (intros index2 height2 Hin; apply (H index2 height2); by right).
  pose proof (observeEntry_lookup m b index height i) as [Ho _].
  rewrite E in Ho. simpl in Ho. apply Ho.
  destruct (H index height) as [?|?]; [left|by left|by right].
Qed.

Lemma fold_observeEntry_unchanged entries (m : gmap Z Q) b :
  (∀ index height, (index, height) ∈ entries →
     (index < 0)%Z ∨ ∃ prev, m !! index = Some prev ∧ (prev == height)%Q) →
  fold_left observeEntry entries (m, b) = (m, b).
Proof.
  induction entries as [|[index height] entries IH]; intros H; [done|].
  cbn [fold_left].
  assert (observeEntry (m, b) (index, height) = (m, b)) as ->.
  { unfold observeEntry.
    destruct (H index height) as [Hneg|(prev & Hm & Hq)]; [left| |].
    - assert ((0 <=? index)%Z = false) as -> by (apply Z.leb_gt; lia). done.
    - destruct (0 <=? index)%Z; [|done]. rewrite Hm.
      by apply Qeq_bool_iff in Hq as ->. }
  apply IH. intros index2 height2 Hin. apply (H index2 height2). by right.
Qed.

Lemma fold_observeEntry_flag entries (m : gmap Z Q) b :
  snd (fold_left observeEntry entries (m, b)) = false →
  fst (fold_left observeEntry entries (m, b)) = m ∧ b = false.
Proof.
  revert m b. induction entries as [|[index height] entries IH]; intros m b;
    [done|].
  cbn [fold_left].
  destruct (observeEntry (m, b) (index, height)) as [m2 b2] eqn:E.
  intros [-> ->]%IH. unfold observeEntry in E.
  destruct (0 <=? index)%Z; [|by injection E as <- <-].
  destruct (m !! index) as [prev|]; [|done].
  destruct (Qeq_bool prev height); [by injection E as <- <-|done].
Qed.

Lemma measuredHeights_onResizeEntries st entries :
  measuredHeights (onResizeEntries st entries)
  = fst (fold_left observeEntry entries (measuredHeights st, false)).
Proof.
  unfold onResizeEntries.
  pose proof (fold_observeEntry_flag entries (measuredHeights st) false) as H.
  destruct (fold_left observeEntry entries (measuredHeights st, false))
    as [m [|]]; simpl in *; [done|].
  by destruct H as [-> _].
Qed.

End ObserverFacts.

(** X11.  A resize notification in which every row either carries no valid
    index or reports the height already on record changes nothing: no
    measurement is rewritten and no re-layout or scroll restore is queued. *)
Theorem onResizeEntries_unchanged_heights
    (st : Rows.State) (entries : list Rows.ResizeEntry) :
  (∀ index height, (index, height) ∈ entries →
     (index < 0)%Z
     ∨ ∃ prev, Rows.measuredHeights st !! index = Some prev ∧ (prev == height)%Q) →
  Rows.onResizeEntries st entries = st.
Proof.
  intros H. unfold Rows.onResizeEntries.
  by rewrite fold_observeEntry_unchanged.
Qed.

Lemma onResizeEntries_unchanged_heights_witness :
  let measured := Rows.onResizeEntries Rows.scrolledDown [(9%Z, 640%Q)] in
  Rows.frameQueue measured = [Rows.RestoreScroll 336]
  ∧ Rows.onResizeEntries measured [((-1)%Z, 50%Q); (9%Z, (1280 # 2)%Q)]
    = measured.
Proof.
  intros measured. split; [by vm_compute|].
  apply onResizeEntries_unchanged_heights.
  intros index height [Hin|Hin]%elem_of_cons.
  - injection Hin as -> ->. left. lia.
  - apply list_elem_of_singleton in Hin. injection Hin as -> ->.
    right. exists 640%Q. split; by vm_compute.
Defined.

(** X12.  After a resize notification the height on record for a row is the
    one of the last entry that names the row (entries without a valid
    index record nothing), and rows no entry names keep what was on
    record. *)
Theorem onResizeEntries_records_last
    (st : Rows.State) (entries : list Rows.ResizeEntry) (i : Z) :
  let after := Rows.measuredHeights (Rows.onResizeEntries st entries) in
  ((∀ index height, (index, height) ∈ entries → index ≠ i ∨ (index < 0)%Z) →
   after !! i = Rows.measuredHeights st !! i)
  ∧ (∀ before height later,
       entries = before ++ (i, height) :: later → (0 ≤ i)%Z →
       (∀ index h, (index, h) ∈ later → index ≠ i) →
       ∃ recorded, after !! i = Some recorded ∧ (recorded == height)%Q).
Proof.
  intros after. unfold after. rewrite measuredHeights_onResizeEntries.
  split.
  - apply fold_observeEntry_other.
  - intros before height later -> Hi Hlater.
    rewrite fold_left_app. cbn [fold_left].
    clear after. set (r := fold_left _ before _). destruct r as [m b].
    destruct (Rows.observeEntry (m, b) (i, height)) as [m2 b2] eqn:E.
    pose proof (observeEntry_lookup m b i height i) as [_ Ho].
    rewrite E in Ho. destruct (Ho Hi) as (recorded & Hr & Hq).
    exists recorded. split; [|done]. simpl in Hr. rewrite <- Hr.
    apply fold_observeEntry_other.
    intros index h Hin. left. by apply (Hlater index h).
Qed.

(** ** The chart's sampling *)

Section SamplingFacts.
Import Chart.

Lemma spaced_weaken a b l : (a ≤ b)%Z → spaced b l → spaced a l.
Proof. destruct l as [|p l]; [done|]. simpl. intros ? [? ?]. split; [lia|done]. Qed.

Lemma spaced_sublist l' l : l' `sublist_of` l → ∀ a, spaced a l → spaced a l'.
Proof.
  induction 1 as [|x l1 l2 Hs IH|x l1 l2 Hs IH]; intros a; simpl; [done| |].
  - intros [? ?]. split; [done|]. by apply IH.
  - intros [Hgap Hsp]. apply IH. apply (spaced_weaken _ (timestamp x)); [|done].
    unfold MIN_DATA_POINT_DISTANCE in Hgap. lia.
Qed.

Lemma spaced_app a l1 l2 :
  spaced a (l1 ++ l2)
  ↔ spaced a l1 ∧ spaced (default a (last (map timestamp l1))) l2.
Proof.
  revert a. induction l1 as [|p l1 IH]; intros a; simpl.
  - tauto.
  - rewrite IH. destruct l1 as [|q l1]; simpl; [tauto|].
    assert (∀ x y, default x (last (timestamp q :: map timestamp l1))
                   = default y (last (timestamp q :: map timestamp l1))) as Hd.
    { intros x y. generalize (timestamp q). induction (map timestamp l1) as [|z zs IHz];
        intros t; [done|]. apply (IHz z). }
    rewrite (Hd a (timestamp p)). tauto.
Qed.

(** The loop of [dataMemo] keeps its state in step: [lastTimestamp] is the
    timestamp of the point pushed last, and what it pushes is taken in
    order from what it reads. *)
Lemma fold_samplePoint_inv l acc :
  spaced 0 acc →
  let lastTimestamp := default 0%Z (last (map timestamp acc)) in
  ∃ kept, fst (fold_left samplePoint l (acc, lastTimestamp)) = acc ++ kept
          ∧ kept `sublist_of` l ∧ spaced 0 (acc ++ kept).
Proof.
  revert acc. induction l as [|p l IH]; intros acc Hacc lastTimestamp.
  - exists []. rewrite app_nil_r. split_and!; [done|done|done].
  - cbn [fold_left samplePoint].
    destruct (timestamp p =? 0)%Z eqn:Hz.
    { destruct (IH acc Hacc) as (kept & E & Hs & Hsp).
      exists kept. split_and!; [done|by apply sublist_cons|done]. }
    destruct (MIN_DATA_POINT_DISTANCE <=? timestamp p - lastTimestamp)%Z eqn:Hd.
    + assert (spaced 0 (acc ++ [p])) as Hacc'.
      { apply spaced_app. split; [done|]. simpl. split; [|done].
        by apply Z.leb_le in Hd. }
      destruct (IH (acc ++ [p]) Hacc') as (kept & E & Hs & Hsp).
      exists (p :: kept).
      rewrite map_app, last_app in E. simpl in E.
      rewrite E, <- app_assoc. split_and!; [done|by apply sublist_skip|].
      by rewrite <- app_assoc in Hsp.
    + destruct (IH acc Hacc) as (kept & E & Hs & Hsp).
      exists kept. split_and!; [done|by apply sublist_cons|done].
Qed.

Lemma sampledData_inv l : spaced 0 (sampledData l) ∧ sampledData l `sublist_of` l.
Proof.
  destruct (fold_samplePoint_inv l [] I) as (kept & E & Hs & Hsp).
  unfold sampledData. simpl in E. rewrite E. by simpl in Hsp.
Qed.

Lemma everyNth_snoc step l x :
  everyNth step (l ++ [x])
  = everyNth step l
    ++ (if (Z.of_nat (length l) mod step =? 0)%Z then [x] else []).
Proof.
  unfold everyNth. rewrite imap_app, List.filter_app, map_app. f_equal.
  simpl. rewrite Nat.add_0_r. by destruct (_ =? _)%Z.
Qed.

Lemma everyNth_sublist step l : everyNth step l `sublist_of` l.
Proof.
  induction l as [|x l IH] using rev_ind; [done|].
  rewrite everyNth_snoc. apply sublist_app; [done|].
  destruct (_ =? _)%Z; [done|]. apply sublist_nil_l.
Qed.

(** Keeping every [step]-th element keeps [⌈n / step⌉] of [n]. *)
Lemma length_everyNth step l :
  (0 < step)%Z →
  let n := Z.of_nat (length l) in
  let kept := Z.of_nat (length (everyNth step l)) in
  (kept * step - step < n ≤ kept * step)%Z.
Proof.
  intros Hstep. induction l as [|x l IH] using rev_ind; [simpl; lia|].
  cbv zeta in *. rewrite everyNth_snoc. rewrite !length_app. simpl length.
  destruct (_ =? _)%Z eqn:Hm; simpl length.
  - apply Z.eqb_eq in Hm. apply Z.mod_divide in Hm; [|lia].
    destruct Hm as [q Hq]. rewrite Hq in IH.
    assert (q = Z.of_nat (length (everyNth step l))) by nia. nia.
  - apply Z.eqb_neq in Hm.
    assert (Z.of_nat (length l) ≠ Z.of_nat (length (everyNth step l)) * step)%Z.
    { intros E. apply Hm. rewrite E. apply Z.mod_mul. lia. }
    lia.
Qed.

Lemma length_finalData sampled : (length (finalData sampled) ≤ 200)%nat.
Proof.
  unfold finalData, MAX_DATA_POINTS, stepFor.
  destruct (200 <? Z.of_nat (length sampled))%Z eqn:Hbig.
  - apply Z.ltb_lt in Hbig.
    set (n := Z.of_nat (length sampled)) in *.
    assert (0 < (n + 200 - 1) / 200)%Z as Hstep
      by (apply Z.div_str_pos; lia).
    pose proof (length_everyNth _ sampled Hstep) as H. cbv zeta in H. fold n in H.
    pose proof (Z.mul_div_le (n + 200 - 1) 200 ltac:(lia)).
    pose proof (Z.mod_pos_bound (n + 200 - 1) 200 ltac:(lia)).
    pose proof (Z.div_mod (n + 200 - 1) 200 ltac:(lia)).
    set (step := ((n + 200 - 1) / 200)%Z) in *.
    set (kept := length (everyNth step sampled)) in *.
    assert (n ≤ 200 * step)%Z by lia.
    destruct (decide (kept ≤ 200)%nat) as [|Hmore]; [done|].
    assert (200 * step ≤ (Z.of_nat kept - 1) * step)%Z by nia. lia.
  - apply Z.ltb_ge in Hbig. lia.
Qed.

Lemma finalData_sublist sampled : finalData sampled `sublist_of` sampled.
Proof.
  unfold finalData. destruct (_ <? _)%Z; [apply everyNth_sublist|done].
Qed.

Lemma spaced_times chartTime l :
  spaced chartTime l →
  Forall (λ p, chartTime + 60000 ≤ timestamp p)%Z l
  ∧ StronglySorted (λ a b, timestamp a + 60000 ≤ timestamp b)%Z l.
Proof.
  revert chartTime. induction l as [|p l IH]; intros a; simpl.
  - intros _. split; constructor.
  - unfold MIN_DATA_POINT_DISTANCE. intros [Hgap Hsp].
    destruct (IH _ Hsp) as [Hall Hsorted]. split.
    + constructor; [lia|]. eapply Forall_impl; [exact Hall|]. simpl. lia.
    + constructor; [done|]. apply Forall_forall.
      rewrite Forall_forall in Hall. intros q Hq. specialize (Hall q Hq). lia.
Qed.

End SamplingFacts.

(** X13.  The sampling loop of the chart, for any list of points: the
    points it keeps are in the order read, each at least 60 seconds after
    the one kept before it (the first at least 60 seconds after time zero),
    and sampling what was sampled changes nothing. *)
Theorem sampledData_spaced_sublist (sortedData : list HistoryPoint) :
  let sampled := Chart.sampledData sortedData in
  spaced 0 sampled
  ∧ sampled `sublist_of` sortedData
  ∧ Chart.sampledData sampled = sampled.
Proof.
  intros sampled. destruct (sampledData_inv sortedData) as [Hsp Hsub].
  split_and!; [done|done|]. by apply sampledData_spaced.
Qed.

(** X14.  Whatever the history, the chart is handed at most 200 points,
    their times (in seconds) at least 60 and each at least 60 more than
    the one before. *)
Theorem dataMemo_bounded_increasing (history : list HistoryPoint) (type : Metric) :
  let data := Chart.dataMemo history type in
  (length data ≤ 200)%nat
  ∧ Forall (λ d, 60 ≤ fst d)%Z data
  ∧ StronglySorted (λ a b, fst a + 60 ≤ fst b)%Z data.
Proof.
  intros data. unfold data, Chart.dataMemo.
  destruct history as [|p history]; [split_and!; simpl; [lia|constructor|constructor]|].
  set (sortedData := sortByTimestamp (p :: history)).
  rewrite length_map. split; [apply length_finalData|].
  destruct (sampledData_inv sortedData) as [Hsp _].
  pose proof (spaced_sublist _ _ (finalData_sublist (Chart.sampledData sortedData))
                _ Hsp) as Hfin.
  apply spaced_times in Hfin. destruct Hfin as [Hall Hsorted].
  split.
  - apply Forall_map. eapply Forall_impl; [exact Hall|]. simpl. intros q Hq.
    apply Z.div_le_lower_bound; lia.
  - induction Hsorted as [|q l Hs IH Hq]; simpl; constructor.
    + apply IH. by inversion Hall.
    + apply Forall_map. eapply Forall_impl; [exact Hq|]. simpl. intros r Hr.
      pose proof (Z.div_le_mono (timestamp q + 60 * 1000) (timestamp r) 1000
                    ltac:(lia) ltac:(lia)) as Hd.
      rewrite Z.div_add in Hd by lia. lia.
Qed.

(** ** Extremes, the trend line and the vertical scale *)

Section ScaleFacts.
Import Scale.
Local Open Scope Q_scope.

Lemma fold_Qmin_le l v : fold_left Qmin l v <= v.
Proof.
  revert v. induction l as [|x l IH]; intros v; simpl; [lra|].
  eapply Qle_trans; [apply IH|]. apply Q.le_min_l.
Qed.

Lemma fold_Qmin_lower l v x : x ∈ l → fold_left Qmin l v <= x.
Proof.
  revert v. induction l as [|y l IH]; intros v; [by intros ?%elem_of_nil|].
  intros [->|Hin]%elem_of_cons; simpl.
  - eapply Qle_trans; [apply fold_Qmin_le|]. apply Q.le_min_r.
  - by apply IH.
Qed.

Lemma fold_Qmax_ge l v : v <= fold_left Qmax l v.
Proof.
  revert v. induction l as [|x l IH]; intros v; simpl; [lra|].
  eapply Qle_trans; [|apply IH]. apply Q.le_max_l.
Qed.

Lemma fold_Qmax_upper l v x : x ∈ l → x <= fold_left Qmax l v.
Proof.
  revert v. induction l as [|y l IH]; intros v; [by intros ?%elem_of_nil|].
  intros [->|Hin]%elem_of_cons; simpl.
  - eapply Qle_trans; [|apply fold_Qmax_ge]. apply Q.le_max_r.
  - by apply IH.
Qed.

Lemma minOf_le values v : v ∈ values → minOf values <= v.
Proof.
  destruct values as [|w rest]; [by intros ?%elem_of_nil|].
  intros [->|Hin]%elem_of_cons; simpl.
  - apply fold_Qmin_le.
  - by apply fold_Qmin_lower.
Qed.

Lemma maxOf_ge values v : v ∈ values → v <= maxOf values.
Proof.
  destruct values as [|w rest]; [by intros ?%elem_of_nil|].
  intros [->|Hin]%elem_of_cons; simpl.
  - apply fold_Qmax_ge.
  - by apply fold_Qmax_upper.
Qed.

Lemma minOf_le_maxOf values : minOf values <= maxOf values.
Proof.
  destruct values as [|w rest]; [simpl; lra|].
  eapply Qle_trans; [apply (minOf_le _ w)|apply (maxOf_ge _ w)]; left.
Qed.

(** Adding [c] to every value adds [c] to both extremes. *)
Lemma fold_Qmin_shift c l1 l2 v1 v2 :
  Forall2 (λ a b, b == a + c) l1 l2 → v2 == v1 + c →
  fold_left Qmin l2 v2 == fold_left Qmin l1 v1 + c.
Proof.
  intros H. revert v1 v2. induction H as [|a b l1 l2 Hab _ IH]; intros v1 v2 Hv;
    simpl; [done|].
  apply IH. rewrite Hv, Hab. apply Q.plus_min_distr_r.
Qed.

Lemma fold_Qmax_shift c l1 l2 v1 v2 :
  Forall2 (λ a b, b == a + c) l1 l2 → v2 == v1 + c →
  fold_left Qmax l2 v2 == fold_left Qmax l1 v1 + c.
Proof.
  intros H. revert v1 v2. induction H as [|a b l1 l2 Hab _ IH]; intros v1 v2 Hv;
    simpl; [done|].
  apply IH. rewrite Hv, Hab. apply Q.plus_max_distr_r.
Qed.

Lemma minOf_shift c l1 l2 :
  l1 ≠ [] → Forall2 (λ a b, b == a + c) l1 l2 → minOf l2 == minOf l1 + c.
Proof.
  intros Hne H. destruct H as [|a b l1 l2 Hab H]; [done|].
  simpl. by apply fold_Qmin_shift.
Qed.

Lemma maxOf_shift c l1 l2 :
  l1 ≠ [] → Forall2 (λ a b, b == a + c) l1 l2 → maxOf l2 == maxOf l1 + c.
Proof.
  intros Hne H. destruct H as [|a b l1 l2 Hab H]; [done|].
  simpl. by apply fold_Qmax_shift.
Qed.

(** The final trend points are the initial ones moved by the difference of
    the two intercepts. *)
Lemma trend_points_shift (data : list (Z * Q)) (g : nat → Q) slope i0 i1 :
  Forall2 (λ a b, b == a + (i1 - i0))
    (map (λ x, slope * x + i0) (imap (λ i _, g i) (map snd data)))
    (map snd (imap (λ i d, (fst d, slope * g i + i1)) data)).
Proof.
  revert g. induction data as [|d data IH]; intros g; simpl; constructor.
  - ring.
  - apply (IH (g ∘ S)).
Qed.

Lemma trend_points_step (data : list (Z * Q)) (g : nat → Q) slope i1 i a b :
  let trend := map snd (imap (λ i d, (fst d, slope * g i + i1)) data) in
  trend !! i = Some a → trend !! S i = Some b →
  b - a == slope * (g (S i) - g i).
Proof.
  revert g i. induction data as [|d data IH]; intros g i trend; [done|].
  destruct i as [|i].
  - destruct data as [|d' data]; [done|]. simpl. intros [= <-] [= <-]. ring.
  - unfold trend. simpl. intros Ha Hb.
    apply (IH (g ∘ S) i Ha Hb).
Qed.

Lemma fst_trend_points (data : list (Z * Q)) (f : nat → Q) :
  map fst (imap (λ i d, (fst d, f i)) data) = map fst data.
Proof.
  revert f. induction data as [|d data IH]; intros f; simpl; [done|].
  f_equal. apply (IH (f ∘ S)).
Qed.

Lemma trendData_unfold history type :
  (2 ≤ length (Chart.dataMemo history type))%nat →
  ∃ slope intercept shift,
    let data := Chart.dataMemo history type in
    let yValues := map snd data in
    let initialTrendPoints :=
      map (λ x, slope * x + intercept) (Regression.indices yValues) in
    slope = Regression.slope yValues
    ∧ shift = (maxOf yValues + minOf yValues) / 2
              - (maxOf initialTrendPoints + minOf initialTrendPoints) / 2
    ∧ trendData history type
      = imap (λ i d, (fst d,
                      slope * inject_Z (Z.of_nat i) + (intercept + shift))) data.
Proof.
  intros Hlen. unfold trendData.
  assert ((length (Chart.dataMemo history type) <? 2)%nat = false) as ->
    by (apply Nat.ltb_ge; lia).
  cbv zeta. eexists _, _, _. split_and!; reflexivity.
Qed.

End ScaleFacts.

Section ScaleProperties.
Local Open Scope Q_scope.

(** X15.  The trend line the chart draws, whenever it draws one (at least
    two points to show): it has a point at each data point's time, it
    rises from each point to the next by the regression slope, and the
    middle of its range is the middle of the data's range. *)
Theorem trendData_centred (history : list HistoryPoint) (type : Metric) :
  let data := Chart.dataMemo history type in
  let trend := Scale.trendData history type in
  (2 ≤ length data)%nat →
  map fst trend = map fst data
  ∧ (∀ i a b, map snd trend !! i = Some a → map snd trend !! S i = Some b →
       b - a == Regression.slope (map snd data))
  ∧ (Scale.maxOf (map snd trend) + Scale.minOf (map snd trend)) / 2
    == (Scale.maxOf (map snd data) + Scale.minOf (map snd data)) / 2.
Proof.
  intros data trend Hlen.
  destruct (trendData_unfold history type Hlen)
    as (slope & intercept & shift & Hslope & Hshift & Htrend).
  cbv zeta in *. fold data in Hslope, Hshift, Htrend. fold trend in Htrend.
  rewrite Htrend. split_and!.
  - apply (fst_trend_points data
             (λ i, slope * inject_Z (Z.of_nat i) + (intercept + shift))).
  - intros i a b Ha Hb.
    pose proof (trend_points_step data (λ i, inject_Z (Z.of_nat i)) slope
                  (intercept + shift) i a b Ha Hb) as Hstep.
    rewrite Hstep, <- Hslope. rewrite inject_succ. ring.
  - pose proof (trend_points_shift data (λ i, inject_Z (Z.of_nat i)) slope
                  intercept (intercept + shift)) as Hrel.
    assert (map (λ x, slope * x + intercept)
                (imap (λ i _, inject_Z (Z.of_nat i)) (map snd data)) ≠ []) as Hne.
    { destruct data as [|d data']; [simpl in Hlen; lia|done]. }
    rewrite (maxOf_shift _ _ _ Hne Hrel), (minOf_shift _ _ _ Hne Hrel).
    unfold Regression.indices in Hshift.
    set (hi := Scale.maxOf _) in *. set (lo := Scale.minOf _) in *.
    rewrite Hshift. field.
Qed.

Lemma trendData_centred_witness :
  (2 ≤ length (Chart.dataMemo risingHistory holders))%nat
  ∧ map fst (Scale.trendData risingHistory holders)
    = map fst (Chart.dataMemo risingHistory holders).
Proof.
  assert (2 ≤ length (Chart.dataMemo risingHistory holders))%nat as H
    by (vm_compute; lia).
  split; [exact H|].
  apply (trendData_centred risingHistory holders H).
Defined.

(** X16.  The vertical scale of the chart contains every value it has to
    show, data and trend line alike. *)
Theorem getDynamicBounds_contains (data trendData : list (Z * Q)) (v : Q) :
  data ≠ [] → trendData ≠ [] →
  v ∈ map snd data ∨ v ∈ map snd trendData →
  let bounds := Scale.getDynamicBounds data trendData in
  Scale.min bounds <= v ∧ v <= Scale.max bounds.
Proof.
  intros Hd Ht Hv bounds. unfold bounds, Scale.getDynamicBounds.
  destruct data as [|d data]; [done|]. destruct trendData as [|t trendData]; [done|].
  cbv zeta. cbn [Scale.min Scale.max].
  set (values := map snd (d :: data)) in *.
  set (trendValues := map snd (t :: trendData)) in *.
  set (absoluteMin := Qmin (Scale.minOf values) (Scale.minOf trendValues)).
  set (absoluteMax := Qmax (Scale.maxOf values) (Scale.maxOf trendValues)).
  set (minRange := Qmax _ _).
  assert (absoluteMin <= v ∧ v <= absoluteMax) as [Hlo Hhi].
  { destruct Hv as [Hv|Hv].
    - split.
      + eapply Qle_trans; [apply Q.le_min_l|by apply minOf_le].
      + eapply Qle_trans; [by apply maxOf_ge|apply Q.le_max_l].
    - split.
      + eapply Qle_trans; [apply Q.le_min_r|by apply minOf_le].
      + eapply Qle_trans; [by apply maxOf_ge|apply Q.le_max_r]. }
  assert (absoluteMax - absoluteMin <= minRange) as Hrange.
  { unfold minRange. eapply Qle_trans; [|apply Q.le_max_l]. apply Q.le_max_l. }
  unfold Scale.PADDING_PERCENT.
  clearbody minRange absoluteMin absoluteMax.
  assert (minRange * (1 + 0.2 * 2) / 2 == (7 # 10) * minRange) as -> by field.
  assert ((absoluteMax + absoluteMin) / 2
          == (1 # 2) * absoluteMax + (1 # 2) * absoluteMin) as -> by field.
  split; lra.
Qed.

Lemma getDynamicBounds_contains_witness :
  let data := Chart.dataMemo risingHistory holders in
  let bounds := Scale.getDynamicBounds data (Scale.trendData risingHistory holders) in
  Scale.min bounds <= 100 ∧ 100 <= Scale.max bounds.
Proof.
  intros data bounds.
  apply (getDynamicBounds_contains data (Scale.trendData risingHistory holders) 100).
  - by vm_compute.
  - by vm_compute.
  - left. unfold data. vm_compute. left.
Defined.

End ScaleProperties.

(** ** The miniature chart *)

(** X17.  The miniature chart and the list's trend calculator classify
    every history alike: the miniature chart samples nothing and uses the
    list's thresholds. *)
Theorem miniChart_trend_is_calculateTrend
    (history : list HistoryPoint) (type : Metric) :
  MiniChart.trendDirection history type = Trend.calculateTrend history type.
Proof.
  unfold MiniChart.trendDirection, MiniChart.dataMemo, Trend.calculateTrend.
  destruct history as [|p history]; [done|].
  rewrite length_map. unfold sortByTimestamp at 1. rewrite length_sort.
  destruct (length (p :: history) <? 2)%nat; [done|].
  cbv zeta. by rewrite !map_map.
Qed.

Section MiniChartFacts.
Local Open Scope Q_scope.

(** X18.  The vertical scale of the miniature chart contains every value
    shown: always with dynamic scaling, and with the fixed 5 % margins as
    long as no value is negative. *)
Theorem chartBounds_contains
    (dynamicScaling : bool) (data : list (Z * Q)) (v : Q) :
  v ∈ map snd data →
  dynamicScaling = true ∨ Forall (λ y, 0 <= y) (map snd data) →
  let bounds := MiniChart.chartBounds dynamicScaling data in
  Scale.min bounds <= v ∧ v <= Scale.max bounds.
Proof.
  intros Hv Hcase bounds. unfold bounds, MiniChart.chartBounds.
  pose proof (minOf_le _ _ Hv) as Hlo. pose proof (maxOf_ge _ _ Hv) as Hhi.
  destruct dynamicScaling.
  - unfold MiniChart.getDynamicBounds.
    destruct data as [|d data]; [by apply elem_of_nil in Hv|].
    cbv zeta. cbn [Scale.min Scale.max].
    set (values := map snd (d :: data)) in *.
    set (minRange := Qmax _ _).
    assert (Scale.maxOf values - Scale.minOf values <= minRange) as Hrange.
    { unfold minRange. eapply Qle_trans; [|apply Q.le_max_l]. apply Q.le_max_l. }
    unfold Scale.PADDING_PERCENT.
    set (lo := Scale.minOf values) in *. set (hi := Scale.maxOf values) in *.
    clearbody minRange lo hi.
    assert (minRange * (1 + 0.2 * 2) / 2 == (7 # 10) * minRange) as -> by field.
    assert ((hi + lo) / 2 == (1 # 2) * hi + (1 # 2) * lo) as -> by field.
    split; lra.
  - destruct Hcase as [|Hpos]; [done|]. cbn [Scale.min Scale.max].
    rewrite Forall_forall in Hpos.
    assert (0 <= Scale.minOf (map snd data)) as Hmin.
    { destruct (map snd data) as [|w rest] eqn:E; [simpl; lra|].
      assert (∀ l x, (∀ y, y ∈ x :: l → 0 <= y) → 0 <= fold_left Qmin l x) as Hfold.
      { clear. induction l as [|z l IH]; intros x H; simpl.
        - apply H. left.
        - apply IH. intros y [->|Hy]%elem_of_cons.
          + apply Q.min_glb; apply H; [left|right; left].
          + apply H. right. by right. }
      simpl. by apply Hfold. }
    split; lra.
Qed.

Lemma chartBounds_contains_witness :
  let data := MiniChart.dataMemo risingHistory holders in
  let bounds := MiniChart.chartBounds false data in
  Scale.min bounds <= 150 ∧ 150 <= Scale.max bounds.
Proof.
  intros data bounds. apply (chartBounds_contains false data 150).
  - unfold data. vm_compute. right. left.
  - right. unfold data. vm_compute. repeat constructor; discriminate.
Defined.

(** With the fixed margins a negative value falls below the scale. *)
Example fixed_margins_cut_negative_values :
  let bounds := MiniChart.chartBounds false [(60%Z, -10); (120%Z, 5)] in
  -10 < Scale.min bounds.
Proof. by vm_compute. Qed.

End MiniChartFacts.

(** ** The price *)

Section PriceFacts.
Local Open Scope Q_scope.
Import Price.



End PriceFacts.

(** ** [throttle] *)

Section ThrottleFacts.
Import Throttle.
Context {Args : Type}.
Implicit Types (st : State Args) (events : list (Event Args)).

(** Between two events the closure state and the timer agree: a timer is
    pending exactly when one is due, and it is due [wait] after
    [previous]. *)
Lemma run_spaced (wait : Z) events : (0 < wait)%Z → ∀ st clock due,
  (0 ≤ previous st ≤ clock)%Z →
  match due with
  | Some d => is_Some (timeout st) ∧ d = (previous st + wait)%Z ∧ previous st ≠ 0%Z
  | None => timeout st = None
  end →
  onTime wait st clock due events →
  Forall (λ t, if (previous st =? 0)%Z then 0 < t else previous st + wait ≤ t)%Z
         (map fst (run wait st events))
  ∧ StronglySorted (λ a b, a + wait ≤ b)%Z (map fst (run wait st events)).
Proof.
  intros Hwait. induction events as [|event events IH]; intros st clock due Hprev Hdue.
  { intros _. split; constructor. }
  cbn [onTime run]. intros (Hpos & Hclock & Hfire & Hrest).
  destruct (step wait st event) as [st' calls] eqn:Hstep. cbn [fst] in Hrest.
  assert ((0 ≤ previous st' ≤ timeOf event)%Z
          ∧ match dueAfter due st st' (timeOf event) with
            | Some d => is_Some (timeout st') ∧ d = (previous st' + wait)%Z
                        ∧ previous st' ≠ 0%Z
            | None => timeout st' = None
            end
          ∧ (calls = []
             ∧ (if (previous st =? 0)%Z then previous st' ≠ 0%Z
                else previous st' = previous st)
             ∨ (∃ args, calls = [args]) ∧ previous st' = timeOf event
               ∧ (if (previous st =? 0)%Z then True
                  else previous st + wait ≤ timeOf event)%Z))
    as (Hprev' & Hdue' & Hcalls).
  { destruct event as [now args|now]; cbn [step timeOf] in *.
    - unfold throttled in Hstep.
      set (previous' := if (previous st =? 0)%Z then now else previous st) in *.
      assert (0 < previous' ≤ now)%Z as Hp'.
      { unfold previous'. destruct (previous st =? 0)%Z eqn:E; [lia|].
        apply Z.eqb_neq in E. lia. }
      destruct ((wait - (now - previous') <=? 0)%Z || (wait <? wait - (now - previous'))%Z)
        eqn:Hserve.
      + injection Hstep as <- <-. unfold dueAfter. cbn [timeout previous].
        split_and!; [lia|lia|done|]. right. split_and!; [by eexists|done|].
        apply orb_true_iff in Hserve as [Hle%Z.leb_le|Hlt%Z.ltb_lt]; [|lia].
        unfold previous' in Hle. destruct (previous st =? 0)%Z; [done|lia].
      + apply orb_false_iff in Hserve as [Hle%Z.leb_gt Hlt%Z.ltb_ge].
        destruct (timeout st) as [pending|] eqn:Htimeout.
        * injection Hstep as <- <-. unfold dueAfter. cbn [timeout previous].
          rewrite Htimeout. destruct pending as [pendingArgs remaining].
          destruct due as [d|]; [|congruence].
          destruct Hdue as (_ & -> & Hnz).
          assert (previous' = previous st) as Hsame.
          { unfold previous'. destruct (previous st =? 0)%Z eqn:E; [|done].
            by apply Z.eqb_eq in E. }
          rewrite Hsame. split_and!; [lia|lia|by eexists|done|done|].
          left. split; [done|]. destruct (previous st =? 0)%Z eqn:E; [|done].
          by apply Z.eqb_eq in E.
        * injection Hstep as <- <-. unfold dueAfter. cbn [timeout previous].
          rewrite Htimeout.
          split_and!; [lia|lia|by eexists|lia|lia|].
          left. split; [done|]. unfold previous'.
          destruct (previous st =? 0)%Z; [lia|done].
    - destruct Hfire as (d & -> & Hd). destruct Hdue as ([pending Hpending] & -> & Hnz).
      unfold timerFires in Hstep. rewrite Hpending in Hstep.
      destruct pending as [pendingArgs remaining]. injection Hstep as <- <-.
      unfold dueAfter. cbn [timeout previous].
      split_and!; [lia|lia|done|]. right. split_and!; [by eexists|done|].
      destruct (previous st =? 0)%Z; [done|lia]. }
  destruct (IH st' (timeOf event) _ Hprev' Hdue' Hrest) as [Hall Hsorted].
  rewrite map_app, map_map. cbn [fst].
  destruct Hcalls as [[-> Hsame]|([args ->] & Hnow & Hbound)]; cbn [map app].
  - split; [|done]. eapply Forall_impl; [exact Hall|]. cbn beta. intros t.
    destruct (previous st =? 0)%Z eqn:E.
    + destruct (previous st' =? 0)%Z eqn:E'; [done|].
      apply Z.eqb_neq in E'. lia.
    + rewrite Hsame, E. done.
  - assert ((previous st' =? 0)%Z = false) as E' by (apply Z.eqb_neq; lia).
    rewrite E', Hnow in Hall. split.
    + constructor.
      * destruct (previous st =? 0)%Z; [done|lia].
      * eapply Forall_impl; [exact Hall|]. cbn beta. intros t Ht.
        destruct (previous st =? 0)%Z; lia.
    + by constructor.
Qed.

End ThrottleFacts.

(** X20.  One call of a throttled function either runs the function at
    once with the call's own arguments, leaving no timer behind, or runs
    nothing and leaves a timer pending: the timer that was pending, with
    the arguments it was set with, or a new one for this call, due within
    [wait].  The first call ever is of the second kind. *)
Theorem throttled_serves_or_defers {Args : Type}
    (wait : Z) (st : Throttle.State Args) (now : Z) (args : Args) :
  let st' := fst (Throttle.throttled wait st now args) in
  let calls := snd (Throttle.throttled wait st now args) in
  (calls = [args] ∧ Throttle.timeout st' = None ∧ Throttle.previous st' = now
   ∨ calls = []
     ∧ match Throttle.timeout st with
       | Some pending => Throttle.timeout st' = Some pending
       | None => ∃ remaining, Throttle.timeout st' = Some (args, remaining)
                              ∧ (0 < remaining ≤ wait)%Z
       end)
  ∧ (st = Throttle.fresh → (0 < wait)%Z → now ≠ 0%Z →
     calls = [] ∧ Throttle.timeout st' = Some (args, wait)).
Proof.
  intros st' calls. unfold st', calls, Throttle.throttled. split.
  - set (previous' := if (Throttle.previous st =? 0)%Z then now
                      else Throttle.previous st).
    destruct ((wait - (now - previous') <=? 0)%Z
              || (wait <? wait - (now - previous'))%Z) eqn:Hserve.
    + by left.
    + right. apply orb_false_iff in Hserve as [Hle%Z.leb_gt Hlt%Z.ltb_ge].
      destruct (Throttle.timeout st) as [pending|]; cbn [fst snd Throttle.timeout].
      * done.
      * split; [done|]. by eexists.
  - intros -> Hwait Hnow. cbn [Throttle.fresh Throttle.previous Throttle.timeout].
    rewrite Z.eqb_refl, Z.sub_diag, Z.sub_0_r.
    assert ((wait <=? 0)%Z = false) as -> by (apply Z.leb_gt; lia).
    rewrite Z.ltb_irrefl. done.
Qed.

(** X21.  Under the contract of the clock and of [setTimeout], whatever the
    calls and however late the timers, two runs of the function behind a
    throttle are at least [wait] apart. *)
Theorem throttle_rate_limit {Args : Type} (wait : Z)
    (events : list (Throttle.Event Args)) :
  (0 < wait)%Z →
  Throttle.onTime wait Throttle.fresh 0 None events →
  StronglySorted (λ a b, a + wait ≤ b)%Z
                 (map fst (Throttle.run wait Throttle.fresh events)).
Proof.
  intros Hwait Htimes.
  by apply (run_spaced wait events Hwait Throttle.fresh 0%Z None).
Qed.

Lemma throttle_rate_limit_witness :
  let events :=
    [Throttle.Call 1000 "a"; Throttle.Call 1050 "b"; Throttle.TimerFires 1100;
     Throttle.Call 1150 "c"; Throttle.Call 1200 "d"]%Z in
  Throttle.run 100 Throttle.fresh events = [(1100%Z, "a"); (1200%Z, "d")]
  ∧ StronglySorted (λ a b, a + 100 ≤ b)%Z
                   (map fst (Throttle.run 100 Throttle.fresh events)).
Proof.
  intros events. split; [by vm_compute|].
  apply (throttle_rate_limit 100 events); [lia|].
  unfold events. cbn. split_and!; try lia; try done. by eexists.
Defined.

(** ** The reasons the card lists *)

Section CardFacts.
Import Card.

Lemma elem_of_pushIf r flag reason reasons :
  r ∈ pushIf flag reason reasons ↔ r ∈ reasons ∨ (flag = true ∧ r = reason).
Proof.
  unfold pushIf. destruct flag.
  - rewrite elem_of_app, list_elem_of_singleton. intuition congruence.
  - intuition congruence.
Qed.

Lemma risk_flags_safe (d1 d2 d3 d4 d5 d6 d7 w1 w2 w3 w4 w5 w6 w7 w8 w9 : bool) :
  (if d1 || d2 || d3 || d4 || d5 || d6 || d7 then danger
   else if w1 || w2 || w3 || w4 || w5 || w6 || w7 || (w8 || w9) then warning
        else safe) = safe
  ↔ d1 = false ∧ d2 = false ∧ d3 = false ∧ d4 = false ∧ d5 = false
    ∧ d6 = false ∧ d7 = false
    ∧ w1 = false ∧ w2 = false ∧ w3 = false ∧ w4 = false ∧ w5 = false
    ∧ w6 = false ∧ w7 = false ∧ w8 = false ∧ w9 = false.
Proof.
  destruct d1; [cbn; split; [done|intros ?; destruct_and!; done]|].
  destruct d2; [cbn; split; [done|intros ?; destruct_and!; done]|].
  destruct d3; [cbn; split; [done|intros ?; destruct_and!; done]|].
  destruct d4; [cbn; split; [done|intros ?; destruct_and!; done]|].
  destruct d5; [cbn; split; [done|intros ?; destruct_and!; done]|].
  destruct d6; [cbn; split; [done|intros ?; destruct_and!; done]|].
  destruct d7; [cbn; split; [done|intros ?; destruct_and!; done]|].
  destruct w1; [cbn; split; [done|intros ?; destruct_and!; done]|].
  destruct w2; [cbn; split; [done|intros ?; destruct_and!; done]|].
  destruct w3; [cbn; split; [done|intros ?; destruct_and!; done]|].
  destruct w4; [cbn; split; [done|intros ?; destruct_and!; done]|].
  destruct w5; [cbn; split; [done|intros ?; destruct_and!; done]|].
  destruct w6; [cbn; split; [done|intros ?; destruct_and!; done]|].
  destruct w7; [cbn; split; [done|intros ?; destruct_and!; done]|].
  destruct w8; [cbn; split; [done|intros ?; destruct_and!; done]|].
  destruct w9; [cbn; split; [done|intros ?; destruct_and!; done]|].
  cbn. split; [intros _; split_and!; done|done].
Qed.

Lemma computeRiskLevel_safe token :
  hpIsHoneypot token = false →
  App.computeRiskLevel token = safe
  ↔ gpCanTakeBackOwnership token = false ∧ gpHiddenOwner token = false
    ∧ gpOwnerChangeBalance token = false ∧ gpIsAirdropScam token = false
    ∧ gpHoneypotWithSameCreator token = false ∧ gpFakeToken token = false
    ∧ negb (gpIsOpenSource token) = false
    ∧ gpIsProxy token = false ∧ gpIsMintable token = false
    ∧ gpSlippageModifiable token = false
    ∧ gpPersonalSlippageModifiable token = false
    ∧ gpCannotSellAll token = false ∧ gpTradingCooldown token = false
    ∧ gpTransferPausable token = false
    ∧ Qgtb (gpBuyTax token) 10 = false ∧ Qgtb (gpSellTax token) 10 = false.
Proof.
  intros Hhp. unfold App.computeRiskLevel. rewrite Hhp. apply risk_flags_safe.
Qed.

End CardFacts.

(** X22.  For a token that is not a honeypot the card and the stored risk
    level agree: the level is [safe] exactly when the card lists no reason
    beside the three the classification does not read (proxy calls,
    restricted buying, blacklisting); so every such token stored as
    [warning] or [danger] comes with at least one reason. *)
Theorem reasons_explain_riskLevel (token : Token) (more : Card.MoreFlags) :
  hpIsHoneypot token = false →
  let reasons := Card.getWarningReasons token more in
  (App.computeRiskLevel token = safe
   ↔ ∀ r, r ∈ reasons →
       r = Card.HasProxyCalls ∨ r = Card.BuyingRestricted ∨ r = Card.Blacklisted)
  ∧ (App.computeRiskLevel token ≠ safe → reasons ≠ []).
Proof.
  intros Hhp reasons.
  assert (App.computeRiskLevel token = safe
          ↔ ∀ r, r ∈ reasons →
              r = Card.HasProxyCalls ∨ r = Card.BuyingRestricted
              ∨ r = Card.Blacklisted) as Hiff.
  { rewrite (computeRiskLevel_safe token Hhp).
    unfold reasons, Card.getWarningReasons. cbv zeta. split.
    - intros (-> & -> & -> & -> & -> & -> & -> & -> & -> & -> & -> & -> & -> & ->
              & -> & ->).
      cbn [Card.pushIf app]. intros r.
      rewrite !elem_of_pushIf, elem_of_nil. intuition congruence.
    - intros H.
      assert (∀ flag reason,
                reason ≠ Card.HasProxyCalls → reason ≠ Card.BuyingRestricted →
                reason ≠ Card.Blacklisted →
                (flag = true → reason ∈ reasons) → flag = false) as Hflag.
      { intros flag reason ? ? ? Hin. destruct flag; [|done].
        destruct (H reason (Hin eq_refl)) as [?|[?|?]]; done. }
      unfold reasons, Card.getWarningReasons in Hflag. cbv zeta in Hflag.
      split_and!;
        [apply (Hflag _ Card.OwnershipTakenBack)
        |apply (Hflag _ Card.HiddenOwner)
        |apply (Hflag _ Card.OwnerChangesBalances)
        |apply (Hflag _ Card.AirdropScam)
        |apply (Hflag _ Card.CreatorHoneypots)
        |apply (Hflag _ Card.FakeToken)
        |apply (Hflag _ Card.NotOpenSource)
        |apply (Hflag _ Card.UsesProxy)
        |apply (Hflag _ Card.Mintable)
        |apply (Hflag _ Card.SlippageModifiable)
        |apply (Hflag _ Card.PersonalSlippageModifiable)
        |apply (Hflag _ Card.CannotSellAll)
        |apply (Hflag _ Card.TradingCooldown)
        |apply (Hflag _ Card.TransfersPausable)
        |apply (Hflag _ (Card.HighBuyTax (gpBuyTax token)))
        |apply (Hflag _ (Card.HighSellTax (gpSellTax token)))];
        try done; intros Htrue; rewrite !elem_of_pushIf; tauto. }
  split; [exact Hiff|].
  intros Hrisk Hnil. apply Hrisk, Hiff. intros r. rewrite Hnil.
  by intros ?%elem_of_nil.
Qed.

Lemma reasons_explain_riskLevel_witness :
  let token := pausableToken in
  let more := {| Card.gpHasProxyCalls := false; Card.gpCannotBuy := false;
                 Card.gpIsBlacklisted := false |} in
  hpIsHoneypot token = false
  ∧ App.computeRiskLevel token = warning
  ∧ Card.getWarningReasons token more ≠ [].
Proof.
  intros token more. split_and!; [done|by vm_compute|].
  apply (reasons_explain_riskLevel token more eq_refl). by vm_compute.
Defined.

(** A honeypot with no other flag is stored as [danger] and the card gives
    no reason for it. *)
Example honeypot_has_no_reason :
  let token := honeypotToken in
  App.computeRiskLevel token = danger
  ∧ Card.getWarningReasons token
      {| Card.gpHasProxyCalls := false; Card.gpCannotBuy := false;
         Card.gpIsBlacklisted := false |}
    = [].
Proof. by vm_compute. Qed.

(** ** Histories and trends of the list *)

Section HistoryFacts.
Import ListView.

Lemma elem_of_List_filter {A : Type} (p : A → bool) l x :
  x ∈ List.filter p l ↔ x ∈ l ∧ p x = true.
Proof. rewrite !list_elem_of_In. apply filter_In. Qed.

Lemma elem_of_map {A B : Type} (f : A → B) l y :
  y ∈ map f l ↔ ∃ x, f x = y ∧ x ∈ l.
Proof.
  rewrite list_elem_of_In, in_map_iff.
  split; intros (x & ? & ?); exists x; by rewrite ?list_elem_of_In in *.
Qed.

Lemma elem_of_setOrder {A : Type} `{EqDecision A} (l : list A) x :
  x ∈ setOrder l ↔ x ∈ l.
Proof.
  induction l as [|y l IH]; [done|]. simpl.
  rewrite !elem_of_cons, elem_of_List_filter, IH.
  destruct (decide (x = y)) as [->|Hne]; [tauto|].
  rewrite bool_decide_eq_false_2 by done. simpl. tauto.
Qed.

Lemma NoDup_setOrder {A : Type} `{EqDecision A} (l : list A) : NoDup (setOrder l).
Proof.
  induction l as [|y l IH]; simpl; constructor.
  - rewrite elem_of_List_filter. intros [_ H].
    by rewrite bool_decide_eq_true_2 in H.
  - apply NoDup_ListNoDup, List.NoDup_filter. by apply NoDup_ListNoDup.
Qed.

Lemma NoDup_omap_inj {A B : Type} (f : A → option B) l :
  (∀ x1 x2 y, f x1 = Some y → f x2 = Some y → x1 = x2) →
  NoDup l → NoDup (omap f l).
Proof.
  intros Hinj. induction 1 as [|x l Hx Hnd IH]; simpl; [constructor|].
  destruct (f x) as [y|] eqn:E; [|done]. constructor; [|done].
  rewrite list_elem_of_omap. intros (x' & Hin & E').
  by rewrite (Hinj x x' y E E') in Hx.
Qed.

(** Which address the effect asks for. *)
Lemma fetch_filter_Some hs (address : option string) a :
  match address with
  | Some a =>
      if negb (String.eqb a EmptyString)
         && negb (bool_decide (is_Some (tokenHistories hs !! a)))
      then Some a else None
  | None => None
  end = Some a
  ↔ address = Some a ∧ a ≠ EmptyString ∧ tokenHistories hs !! a = None.
Proof.
  destruct address as [b|]; [|intuition congruence].
  destruct (String.eqb b EmptyString) eqn:Hb; simpl.
  - apply String.eqb_eq in Hb. subst b. intuition congruence.
  - apply String.eqb_neq in Hb.
    destruct (tokenHistories hs !! b) as [h|] eqn:Hh.
    + rewrite bool_decide_eq_true_2 by (by eexists). simpl.
      split; [done|]. intros ([= ->] & _ & ?). congruence.
    + rewrite bool_decide_eq_false_2 by (by intros [? ?]). simpl.
      split; [intros [= ->]; done|]. by intros ([= ->] & _ & _).
Qed.

Lemma fetchTokenHistory_other hs address response a :
  a ≠ address →
  tokenHistories (fetchTokenHistory hs address response) !! a
  = tokenHistories hs !! a
  ∧ tokenTrends (fetchTokenHistory hs address response) !! a
    = tokenTrends hs !! a.
Proof.
  intros Hne. destruct response as [history|]; simpl; [|done].
  by rewrite !lookup_insert_ne.
Qed.

Lemma fetchTokenHistory_grows hs address response a :
  is_Some (tokenHistories hs !! a) →
  is_Some (tokenHistories (fetchTokenHistory hs address response) !! a).
Proof.
  intros H. destruct response as [history|]; simpl; [|done].
  destruct (decide (address = a)) as [->|Hne].
  - rewrite lookup_insert_eq. by eexists.
  - by rewrite lookup_insert_ne.
Qed.

Lemma elem_of_historiesToFetch tokens st virtualIndices hs a :
  a ∈ historiesToFetch tokens st virtualIndices hs
  ↔ a ≠ EmptyString
    ∧ tokenHistories hs !! a = None
    ∧ ∃ index token,
        index ∈ virtualIndices
        ∧ Js.at_index (Rows.rows tokens st) index = Some token
        ∧ tokenAddress token = a.
Proof.
  unfold historiesToFetch. cbv zeta. rewrite list_elem_of_omap. split.
  - intros (address & Hin & Hf). apply fetch_filter_Some in Hf as (-> & Hne & Hnone).
    rewrite elem_of_setOrder, elem_of_map in Hin. destruct Hin as (visible & Hv & Hin).
    rewrite elem_of_map in Hin. destruct Hin as (index & <- & Hin).
    destruct (Js.at_index (Rows.rows tokens st) index) as [token|] eqn:E; [|done].
    injection Hv as Hv. split_and!; [done|done|]. by exists index, token.
  - intros (Hne & Hnone & index & token & Hin & Hat & <-).
    exists (Some (tokenAddress token)). split.
    + rewrite elem_of_setOrder, elem_of_map.
      exists (Some token). split; [done|].
      rewrite elem_of_map. by exists index.
    + by apply (proj2 (fetch_filter_Some hs (Some (tokenAddress token)) _)).
Qed.

End HistoryFacts.

(** X23.  The effect that fetches histories asks once for every address
    that is not empty, has no history yet and belongs to a row the
    virtualizer reports, and for nothing else. *)
Theorem historiesToFetch_plan
    (tokens : list Token) (st : Rows.State) (virtualIndices : list Z)
    (hs : ListView.Histories) :
  let plan := ListView.historiesToFetch tokens st virtualIndices hs in
  NoDup plan
  ∧ ∀ a, a ∈ plan
         ↔ a ≠ EmptyString
           ∧ ListView.tokenHistories hs !! a = None
           ∧ ∃ index token,
               index ∈ virtualIndices
               ∧ Js.at_index (Rows.rows tokens st) index = Some token
               ∧ tokenAddress token = a.
Proof.
  intros plan. unfold plan, ListView.historiesToFetch. cbv zeta. split.
  - apply NoDup_omap_inj; [|apply NoDup_setOrder].
    intros x1 x2 y H1%fetch_filter_Some H2%fetch_filter_Some.
    destruct H1 as [-> _], H2 as [-> _]. done.
  - intros a. apply elem_of_historiesToFetch.
Qed.

(** X24.  In every state the list can reach, a recorded trend is the trend
    of the history on record for the same address; and an address whose
    history came from the cache is never asked for again, so it keeps the
    cached history, gets no trend and is shown as stagnant whatever the
    history says. *)
Theorem session_trends_follow_fetches
    (cached : gmap string (list HistoryPoint)) (hs : ListView.Histories) :
  ListView.session cached hs →
  (∀ a trends, ListView.tokenTrends hs !! a = Some trends →
     ∃ history,
       ListView.tokenHistories hs !! a = Some history
       ∧ trends = {| ListView.liquidityTrend := Trend.calculateTrend history liquidity;
                     ListView.holdersTrend := Trend.calculateTrend history holders |})
  ∧ (∀ a history, cached !! a = Some history →
       ListView.tokenHistories hs !! a = Some history
       ∧ ListView.tokenTrends hs !! a = None
       ∧ ListView.shownTrends hs a
         = {| ListView.liquidityTrend := stagnant;
              ListView.holdersTrend := stagnant |}).
Proof.
  intros Hs.
  assert (∀ planned, ListView.session cached planned →
            ∀ a, is_Some (cached !! a) →
                 is_Some (ListView.tokenHistories planned !! a)) as Hgrows.
  { induction 1 as [|? ? ? ? ? ? ? _ IH _ _ _]; [done|].
    intros a Ha. by apply fetchTokenHistory_grows, IH. }
  induction Hs as [|hs planned tokens st virtualIndices address response
                    Hs IH Hplanned _ Hin].
  - split.
    + intros a trends. simpl. by rewrite lookup_empty.
    + intros a history Ha. unfold ListView.shownTrends. simpl.
      by rewrite lookup_empty.
  - destruct IH as [IHtrends IHcached]. split.
    + intros a trends. destruct response as [fetched|]; [|apply IHtrends].
      simpl. destruct (decide (address = a)) as [->|Hne].
      * rewrite !lookup_insert_eq. intros [= <-]. by eexists.
      * rewrite !lookup_insert_ne by done. apply IHtrends.
    + intros a history Ha.
      assert (a ≠ address) as Hne.
      { intros ->.
        apply elem_of_historiesToFetch in Hin.
        destruct Hin as (_ & Hnone & _).
        destruct (Hgrows planned Hplanned address) as [h Hh]; [by eexists|].
        congruence. }
      destruct (fetchTokenHistory_other hs address response a Hne) as [Eh Et].
      destruct (IHcached a history Ha) as (Hh & Ht & Hshown).
      unfold ListView.shownTrends in *. rewrite Eh, Et. done.
Qed.

Lemma session_trends_follow_fetches_witness :
  let cached : gmap string (list HistoryPoint) := {["C" := risingHistory]} in
  let start := {| ListView.tokenHistories := cached; ListView.tokenTrends := ∅ |} in
  let hs := ListView.fetchTokenHistory start "D" (Some risingHistory) in
  ListView.session cached hs
  ∧ Trend.calculateTrend risingHistory holders = up
  ∧ ListView.shownTrends hs "C"
    = {| ListView.liquidityTrend := stagnant; ListView.holdersTrend := stagnant |}
  ∧ ListView.shownTrends hs "D"
    = {| ListView.liquidityTrend := stagnant; ListView.holdersTrend := up |}.
Proof.
  intros cached start hs.
  assert (ListView.session cached hs) as Hs.
  { apply (ListView.session_response cached start start Rows.twelveTokens
             Rows.scrolledDown [2; 3; 3; 50]%Z "D" (Some risingHistory));
      [constructor|constructor|].
    assert (ListView.historiesToFetch Rows.twelveTokens Rows.scrolledDown
              [2; 3; 3; 50]%Z start = ["D"]) as -> by (by vm_compute).
    left. }
  split_and!; [exact Hs|by vm_compute| |by vm_compute].
  destruct (session_trends_follow_fetches cached hs Hs) as [_ Hcached].
  apply (Hcached "C" risingHistory). by vm_compute.
Defined.
